(** * spanner_orm.model: record instances and the persistence engine

    A shallow embedding of [src/spanner_orm/model.py] (classes
    [ModelMetaclass], [ModelApi] and [Model]) together with the properties
    that its specification states about construction, attribute guards,
    change tracking, single and batched writes and keyed reads.

    Modelling conventions.
    - Python values are the inductive [value]; keyword dictionaries are
      insertion-ordered association lists ([pydict]); an instance's
      [__dict__] and its [start_values] are finite maps.
    - Model objects live in a heap and are passed by reference ([loc]), so a
      list handed to [save_batch] may name one object twice, as in Python.
    - Every method is a computation in the monad [M]: it takes the world
      (heap, database, trace of API calls) and returns either a raised
      exception or a result, always with the world as it was left. An
      exception does not roll anything back.
    - The Spanner API and the query builder are collaborators that are not
      part of [model.py]; they are parameters of the development.
    - Names. An instance keeps the baseline snapshot and the persisted flag
      apart from the other entries of [__dict__]; the column values live
      in [attrs] under the column names. Columns and relations are assumed
      not to be named [start_values] or [_persisted], nor like a property
      of [Model] or a special attribute of the object. Every other clash of
      names that [model.py] can run into is modelled as Python resolves
      it: a keyword argument named after a parameter of the callee, and a
      method called on [self] that an entry of [__dict__] shadows, raise
      [TypeError]; assigning [_persisted] by name replaces the flag;
      assigning a property or a special attribute raises. A method of the
      model stands for the execution of the method's body.
    - Floats and in-place mutation of list values are not modelled. *)

From Stdlib Require Import ZArith Ascii String List Bool Lia.
From stdpp Require Import base option list gmap strings.

Local Open Scope string_scope.
Local Open Scope Z_scope.
Local Open Scope list_scope.

(** ** Python values *)

#[warnings="-register-all"]
Inductive value : Type :=
| VNone
| VBool (b : bool)
| VInt (z : Z)
| VStr (s : string)
| VList (xs : list value).

(** Python's [==] on the modelled values. [bool] is a subclass of [int], so
    [True == 1]; lists compare element-wise. *)
Fixpoint py_eqb (a b : value) {struct a} : bool :=
  match a, b with
  | VNone, VNone => true
  | VBool x, VBool y => Bool.eqb x y
  | VBool x, VInt y => Z.eqb (Z.b2z x) y
  | VInt x, VBool y => Z.eqb x (Z.b2z y)
  | VInt x, VInt y => Z.eqb x y
  | VStr x, VStr y => String.eqb x y
  | VList xs, VList ys =>
      (fix go (xs ys : list value) {struct xs} : bool :=
         match xs, ys with
         | [], [] => true
         | x :: xs', y :: ys' => py_eqb x y && go xs' ys'
         | _, _ => false
         end) xs ys
  | _, _ => false
  end.

(** [isinstance(value, list)] *)
Definition is_list (v : value) : bool :=
  match v with VList _ => true | _ => false end.

(** ** Keyword dictionaries

    A Python [dict] as the code iterates it: pairs in insertion order.
    Lookups return the first binding; [dict_setitem] keeps the position of a
    key that is already present. *)

Definition pydict : Type := list (string * value).

Fixpoint dict_get (d : pydict) (k : string) : option value :=
  match d with
  | [] => None
  | (k', v) :: d' => if String.eqb k' k then Some v else dict_get d' k
  end.

(** [d.get(k)], with [None] for a missing key *)
Definition get_default (d : pydict) (k : string) : value :=
  default VNone (dict_get d k).

Definition dict_keys (d : pydict) : list string := map fst d.

Definition contains (ks : list string) (k : string) : bool :=
  existsb (String.eqb k) ks.

Fixpoint dict_setitem (d : pydict) (k : string) (v : value) : pydict :=
  match d with
  | [] => [(k, v)]
  | (k', v') :: d' =>
      if String.eqb k' k then (k', v) :: d' else (k', v') :: dict_setitem d' k v
  end.

(** [d.update(other)] *)
Definition dict_update (d other : pydict) : pydict :=
  fold_left (fun acc kv => dict_setitem acc (fst kv) (snd kv)) other d.

(** [dict(zip(names, row))] *)
Definition dict_zip (names : list string) (row : list value) : pydict :=
  dict_update [] (combine names row).

(** [set(a) - set(b)], listed in the order of [a]. *)
Definition keys_difference (a b : list string) : list string :=
  List.filter (fun k => negb (contains b k)) a.

(** Equality of two key views: keys views compare as sets. *)
Definition keys_eqb (a b : list string) : bool :=
  forallb (contains b) a && forallb (contains a) b.

(** ** Metadata *)

Inductive field_type : Type := Boolean | Integer | String_ | StringArray.

(** Modelled from the spec: the field descriptor of the [field] module,
    which is not part of [model.py]. A field has a declared value type, a
    nullability flag and a primary-key mark. *)
Record Field : Type := {
  field_kind : field_type;
  nullable : bool;
  primary_key : bool }.

Definition is_str (v : value) : bool :=
  match v with VStr _ => true | _ => false end.

(** Modelled from the spec: the type rule of the field validator ("checks
    the value's type matches the field's declared type"), exact match. *)
Definition type_matches (t : field_type) (v : value) : bool :=
  match t, v with
  | Boolean, VBool _ => true
  | Integer, VInt _ => true
  | String_, VStr _ => true
  | StringArray, VList xs => forallb is_str xs
  | _, _ => false
  end.

(** Modelled from the spec: [Field.validate], "accepts None iff the field is
    nullable; otherwise checks the value's type". [true] means accepted. *)
Definition validate (f : Field) (v : value) : bool :=
  match v with
  | VNone => nullable f
  | _ => type_matches (field_kind f) v
  end.

(** The metadata [cls.meta] of one concrete model class. [fields] is the
    ordered mapping column name -> field; [relations] holds the relation
    names. *)
Record ModelMeta : Type := {
  model_name : string;
  table : string;
  fields : list (string * Field);
  relations : list string }.

Definition columns (m : ModelMeta) : list string := map fst (fields m).

(** Modelled from the spec: "primary keys are frozen from the fields marked
    primary", in declaration order. *)
Definition primary_keys (m : ModelMeta) : list string :=
  map fst (List.filter (fun nf => primary_key (snd nf)) (fields m)).

(** [cls.schema[name]] *)
Fixpoint schema_get (fs : list (string * Field)) (name : string) : option Field :=
  match fs with
  | [] => None
  | (n, f) :: fs' => if String.eqb n name then Some f else schema_get fs' name
  end.

(** ** Exceptions

    The exceptions [model.py] raises or lets through. [MissingKeys],
    [InvalidKeys] and [MismatchedKeys] are the three [error.SpannerError]s
    the module raises itself, told apart by their message. [Validation ty f
    v] is [error_type], raised with [ex.args], for the failure [ex] that
    the validator of field [f] raised for the value [v]: [model.py]
    forwards the validator's arguments as they are and adds nothing, in
    particular not the column name; what the arguments hold is decided in
    the [field] module, so the failure is identified by the field and the
    value that produced it.
    [AttributeError name], [KeyError key] and [TypeError] are Python's own,
    and so is [ReadOnly name], the [AttributeError] that a property without
    setter or a read-only slot raises when it is assigned; [ApiError] is a
    failure of the Spanner API, passed on unchanged.
    [Dangling] and [Unrepresentable] have no counterpart in Python:
    [Dangling] is what the model answers for a reference outside the heap,
    [Unrepresentable] what it answers when an assignment would replace the
    baseline snapshot by a value that is no dictionary, which leaves an
    object the embedding cannot represent. *)

Inductive error_type : Type := SpannerError | ValueError | AttributeErrorT.

(** The ways [model.py] runs into [TypeError]: calling a value that is not
    callable, a keyword argument that gives a second value to a parameter
    already bound, and assigning to [__class__] or [__dict__] a value that
    is no class or dictionary. *)
Inductive type_error : Type :=
| NotCallable (v : value)
| MultipleValues (parameter : string)
| NotAssignable (name : string) (v : value).

Inductive exn (E : Type) : Type :=
| Validation (ty : error_type) (f : Field) (v : value)
| MissingKeys (keys : list string)
| InvalidKeys (model : string) (keys : list string)
| MismatchedKeys
| AttributeError (name : string)
| ReadOnly (name : string)
| KeyError (key : string)
| TypeError (why : type_error)
| Dangling
| Unrepresentable
| ApiError (e : E).

Arguments Validation {E} ty f v.
Arguments MissingKeys {E} keys.
Arguments InvalidKeys {E} model keys.
Arguments MismatchedKeys {E}.
Arguments AttributeError {E} name.
Arguments ReadOnly {E} name.
Arguments KeyError {E} key.
Arguments TypeError {E} why.
Arguments Dangling {E}.
Arguments Unrepresentable {E}.
Arguments ApiError {E} e.

(** ** The Spanner API

    [api.SpannerApi] is an external collaborator. Each of its entry points
    is recorded as an [api_call]; [run_call] gives the outcome of a call on a
    database state: the rows returned (none for a write) or the failure it
    raises, and the database afterwards. *)

Definition transaction : Type := nat.

(** How a call reaches the API: inside the caller's transaction, or wrapped
    by [run_read_only] / [run_write]. *)
Inductive txn_mode : Type :=
| InTransaction (t : transaction)
| RunReadOnly
| RunWrite.

Inductive api_method : Type := insert | update | upsert.

#[global] Instance api_method_eq_dec : EqDecision api_method.
Proof. solve_decision. Defined.

Inductive KeySet : Type :=
| KeySetAll
| KeySetKeys (keys : list (list value)).

Inductive api_call : Type :=
| Find (mode : txn_mode) (tbl : string) (cols : list string) (keyset : KeySet)
| SqlQuery (mode : txn_mode) (sql : string) (parameters : pydict)
    (types : list (string * field_type))
| Write (method : api_method) (mode : txn_mode) (tbl : string)
    (cols : option (list string)) (values : list (list value))
| Delete (mode : txn_mode) (tbl : string) (keyset : KeySet).

Record SpannerApi : Type := {
  DB : Type;
  api_error : Type;
  run_call : api_call -> DB -> (api_error + list (list value)) * DB }.

(** ** Instances and the world *)

Abbreviation loc := nat.

(** A [Model] object: the baseline snapshot, the persisted flag and the
    remaining entries of [__dict__] (column values, relations and any other
    attribute set on the object). *)
Record Instance : Type := {
  start_values : gmap string value;
  _persisted : bool;
  attrs : gmap string value }.

(** [__dict__[name] = v] *)
Definition set_attr (name : string) (v : value) (i : Instance) : Instance :=
  {| start_values := start_values i;
     _persisted := _persisted i;
     attrs := <[name := v]> (attrs i) |}.

(** Python's truth value of a value, as [if obj._persisted] reads it. *)
Definition truthy (v : value) : bool :=
  match v with
  | VNone => false
  | VBool b => b
  | VInt z => negb (Z.eqb z 0)
  | VStr s => negb (String.eqb s "")
  | VList xs => match xs with [] => false | _ :: _ => true end
  end.

(** [__dict__['_persisted'] = p]. The flag is only ever read for its truth
    value, which is what the model keeps. *)
Definition set_flag (p : bool) (i : Instance) : Instance :=
  {| start_values := start_values i;
     _persisted := p;
     attrs := attrs i |}.

(** ** A concrete API and a concrete model

    An in-memory table that behaves like one Spanner table of model [m]:
    rows are keyed by the primary-key tuple, [insert] refuses an existing
    key, [update] refuses a missing one, [upsert] accepts both. It serves
    to run the methods on concrete inputs. *)

Module Memory.

Inductive error : Type := AlreadyExists | NotFound.

Section Table.

Context (m : ModelMeta).

(** The primary-key tuple of a stored row. *)
Definition key_of (row : pydict) : value :=
  VList (map (get_default row) (primary_keys m)).

(** Some stored row has key [k]. *)
Definition has_key (k : value) (rows : list pydict) : bool :=
  existsb (fun row => py_eqb (key_of row) k) rows.

(** The row is one the keyset asks for. *)
Definition selected (keyset : KeySet) (row : pydict) : bool :=
  match keyset with
  | KeySetAll => true
  | KeySetKeys keys => existsb (fun k => py_eqb (key_of row) (VList k)) keys
  end.

(** One row written with [method]: the row [d] carries the columns of the
    call; an existing row is merged with it, a new row gets [None] for the
    columns the call does not carry. *)
Definition write_row (method : api_method) (rows : list pydict) (d : pydict)
  : error + list pydict :=
  let present := has_key (key_of d) rows in
  let merged :=
    map (fun row => if py_eqb (key_of row) (key_of d) then dict_update row d else row)
      rows in
  let added := rows ++ [map (fun c => (c, get_default d c)) (columns m)] in
  match method with
  | insert => if present then inl AlreadyExists else inr added
  | update => if present then inr merged else inl NotFound
  | upsert => if present then inr merged else inr added
  end.

(** The rows of one call, in order; the first refusal aborts the call. *)
Fixpoint write_all (method : api_method) (rows : list pydict) (ds : list pydict)
  : error + list pydict :=
  match ds with
  | [] => inr rows
  | d :: ds' =>
      match write_row method rows d with
      | inl e => inl e
      | inr rows' => write_all method rows' ds'
      end
  end.

(** The API entry points on the table. A refused write leaves the table as
    it was; queries are not interpreted. *)
Definition run (c : api_call) (rows : list pydict)
  : (error + list (list value)) * list pydict :=
  match c with
  | Find _ _ cols keyset =>
      (inr (map (fun row => map (get_default row) cols)
              (List.filter (fun row => selected keyset row) rows)), rows)
  | SqlQuery _ _ _ _ => (inr [], rows)
  | Write method _ _ None _ => (inr [], rows)
  | Write method _ _ (Some cols) values =>
      match write_all method rows (map (combine cols) values) with
      | inl e => (inl e, rows)
      | inr rows' => (inr [], rows')
      end
  | Delete _ _ keyset =>
      (inr [], List.filter (fun row => negb (selected keyset row)) rows)
  end.

Definition api : SpannerApi :=
  {| DB := list pydict; api_error := error; run_call := run |}.

End Table.

(** A model with an integer key, a required title, an optional body and one
    relation. *)
Definition Note : ModelMeta :=
  {| model_name := "Note";
     table := "notes";
     fields :=
       [("key", {| field_kind := Integer; nullable := false; primary_key := true |});
        ("title", {| field_kind := String_; nullable := false; primary_key := false |});
        ("body", {| field_kind := String_; nullable := true; primary_key := false |})];
     relations := ["author"] |}.

End Memory.

Section Model.

Context (api : SpannerApi).

Record World : Type := {
  heap : list Instance;
  db : DB api;
  trace : list api_call }.

Abbreviation exc := (exn (api_error api)).

(** Computations that may raise and that always leave a world behind. *)
Definition M (A : Type) : Type := World -> (exc + A) * World.

Definition ret {A} (a : A) : M A := fun w => (inr a, w).

Definition raise {A} (e : exc) : M A := fun w => (inl e, w).

Definition bind {A B} (c : M A) (k : A -> M B) : M B :=
  fun w =>
    match c w with
    | (inl e, w') => (inl e, w')
    | (inr a, w') => k a w'
    end.

Definition lift {A} (r : exc + A) : M A := fun w => (r, w).

#[global] Instance M_ret : MRet M := @ret.
#[global] Instance M_bind : MBind M := fun A B k c => bind c k.

(** [for x in xs: body(x)] collecting the results *)
Fixpoint mapM {A B} (f : A -> M B) (xs : list A) : M (list B) :=
  match xs with
  | [] => ret []
  | x :: xs' => y ← f x; ys ← mapM f xs'; ret (y :: ys)
  end.

(** [for x in xs: body(x)] *)
Fixpoint forM_ {A} (f : A -> M unit) (xs : list A) : M unit :=
  match xs with
  | [] => ret tt
  | x :: xs' => f x;; forM_ f xs'
  end.

(** A loop that threads an accumulator. *)
Fixpoint foldM {A S} (f : S -> A -> M S) (s : S) (xs : list A) : M S :=
  match xs with
  | [] => ret s
  | x :: xs' => s' ← f s x; foldM f s' xs'
  end.

(** *** Primitive effects *)

Definition read_instance (l : loc) : M Instance :=
  fun w =>
    match heap w !! l with
    | Some i => (inr i, w)
    | None => (inl Dangling, w)
    end.

Definition write_instance (l : loc) (i : Instance) : M unit :=
  fun w => (inr tt, {| heap := <[l := i]> (heap w); db := db w; trace := trace w |}).

Definition alloc (i : Instance) : M loc :=
  fun w => (inr (length (heap w)),
            {| heap := heap w ++ [i]; db := db w; trace := trace w |}).

(** One call of an API entry point: the call is traced, the database moves
    on, and a failure of the API propagates unchanged. *)
Definition call_api (c : api_call) : M (list (list value)) :=
  fun w =>
    let '(r, d) := run_call api c (db w) in
    let w' := {| heap := heap w; db := d; trace := trace w ++ [c] |} in
    match r with
    | inl e => (inl (ApiError e), w')
    | inr rows => (inr rows, w')
    end.

(** [getattr(obj, name)] for a column, relation or plain attribute *)
Definition getattr (l : loc) (name : string) : M value :=
  i ← read_instance l;
  match attrs i !! name with
  | Some v => ret v
  | None => raise (AttributeError name)
  end.

(** [obj._persisted] *)
Definition get_persisted (l : loc) : M bool :=
  i ← read_instance l; ret (_persisted i).

(** [obj._persisted = p] in the methods of the module: what
    [Model.__setattr__] does for that name when it is no column and no
    relation. *)
Definition set_persisted (l : loc) (p : bool) : M unit :=
  i ← read_instance l; write_instance l (set_flag p i).

(** ** ModelMetaclass and ModelApi *)

Context (m : ModelMeta).

(** [ModelMetaclass.validate_value]: the field validator sees the value
    only; its failure is raised again as [error_type] with the arguments it
    came with. *)
Definition validate_value (field_name : string) (v : value) (ty : error_type)
  : exc + unit :=
  match schema_get (fields m) field_name with
  | None => inl (KeyError field_name)
  | Some f => if validate f v then inr tt else inl (Validation ty f v)
  end.

(** [for key, value in items: cls.validate_value(key, value, error_type)] *)
Fixpoint validate_items (items : pydict) (ty : error_type) : exc + unit :=
  match items with
  | [] => inr tt
  | (key, v) :: rest =>
      match validate_value key v ty with
      | inl e => inl e
      | inr _ => validate_items rest ty
      end
  end.

(** [[d[column] for column in names]] *)
Fixpoint subscript_all (d : pydict) (names : list string) : exc + list value :=
  match names with
  | [] => inr []
  | column :: rest =>
      match dict_get d column with
      | None => inl (KeyError column)
      | Some v =>
          match subscript_all d rest with
          | inl e => inl e
          | inr vs => inr (v :: vs)
          end
      end
  end.

(** [ModelApi._execute_read] *)
Definition _execute_read (db_api : txn_mode -> api_call)
    (txn : option transaction) : M (list (list value)) :=
  match txn with
  | Some t => call_api (db_api (InTransaction t))
  | None => call_api (db_api RunReadOnly)
  end.

(** The loop of [_execute_write]: checks each dictionary in turn and
    accumulates the shared column list and the value rows. *)
Fixpoint write_rows (dictionaries : list pydict) (cols : option (list string))
    (values : list (list value)) : exc + (option (list string) * list (list value)) :=
  match dictionaries with
  | [] => inr (cols, values)
  | dictionary :: rest =>
      let invalid_keys := keys_difference (dict_keys dictionary) (columns m) in
      match invalid_keys with
      | _ :: _ => inl (InvalidKeys (model_name m) invalid_keys)
      | [] =>
          let cols' := match cols with
                       | None => dict_keys dictionary
                       | Some c => c
                       end in
          if negb (keys_eqb cols' (dict_keys dictionary)) then inl MismatchedKeys
          else
            match validate_items dictionary SpannerError with
            | inl e => inl e
            | inr _ =>
                match subscript_all dictionary cols' with
                | inl e => inl e
                | inr row => write_rows rest (Some cols') (values ++ [row])
                end
            end
      end
  end.

(** [ModelApi._execute_write] *)
Definition _execute_write (db_api : api_method) (txn : option transaction)
    (dictionaries : list pydict) : M unit :=
  '(cols, values) ← lift (write_rows dictionaries None []);
  match txn with
  | Some t => call_api (Write db_api (InTransaction t) (table m) cols values);; ret tt
  | None => call_api (Write db_api RunWrite (table m) cols values);; ret tt
  end.

(** [ModelApi.create], [ModelApi.update], [ModelApi.create_or_update] *)
Definition create (txn : option transaction) (kwargs : pydict) : M unit :=
  _execute_write insert txn [kwargs].

Definition update_ (txn : option transaction) (kwargs : pydict) : M unit :=
  _execute_write update txn [kwargs].

Definition create_or_update (txn : option transaction) (kwargs : pydict) : M unit :=
  _execute_write upsert txn [kwargs].

(** ** Model *)

(** The checks [Model.__init__] runs when [persisted] is false. *)
Definition init_checks (values : pydict) : exc + unit :=
  let missing_keys := keys_difference (primary_keys m) (dict_keys values) in
  match missing_keys with
  | _ :: _ => inl (MissingKeys missing_keys)
  | [] =>
      validate_items (map (fun column => (column, get_default values column)) (columns m))
        ValueError
  end.

(** The state [Model.__init__] builds: every column goes to the baseline
    and to [__dict__] ([copy.copy] of an immutable value is the value), then
    each relation present in the input goes to [__dict__]. *)
Definition init_instance (values : pydict) (persisted : bool) : Instance :=
  let from_columns :=
    fold_left (fun acc column => <[column := get_default values column]> acc)
      (columns m) (∅ : gmap string value) in
  {| start_values := from_columns;
     _persisted := persisted;
     attrs :=
       fold_left (fun acc relation =>
                    match dict_get values relation with
                    | Some v => <[relation := v]> acc
                    | None => acc
                    end) (relations m) from_columns |}.

(** [Model(values, persisted)]. The object becomes reachable only when
    [__init__] returns. *)
Definition __init__ (values : pydict) (persisted : bool) : M loc :=
  (if persisted then ret tt else lift (init_checks values));;
  alloc (init_instance values persisted).

(** The names that assignment finds on the class before [__dict__]: the
    properties of [Model], which have no setter, and the read-only slot
    [__weakref__]. *)
Definition read_only_names : list string :=
  ["_metaclass"; "_columns"; "_fields"; "_primary_keys"; "_relations"; "_table";
   "values"; "__weakref__"].

(** [__class__] and [__dict__] accept a class and a dictionary only. *)
Definition typed_names : list string := ["__class__"; "__dict__"].

(** [super().__setattr__(name, value)]. A column keeps its value under its
    name. Of the other names, a property or read-only slot refuses the
    assignment, [__class__] and [__dict__] refuse every modelled value,
    [_persisted] is the flag, read for its truth value, and [start_values]
    is the baseline snapshot, which none of the modelled values can stand
    for; any other name becomes, or replaces, an entry of [__dict__]. *)
Definition store_attr (l : loc) (name : string) (v : value) : M unit :=
  i ← read_instance l;
  if contains (columns m) name then write_instance l (set_attr name v i)
  else if contains read_only_names name then raise (ReadOnly name)
  else if contains typed_names name then raise (TypeError (NotAssignable name v))
  else if String.eqb name "_persisted" then write_instance l (set_flag (truthy v) i)
  else if String.eqb name "start_values" then raise Unrepresentable
  else write_instance l (set_attr name v i).

(** [Model.__setattr__] *)
Definition __setattr__ (l : loc) (name : string) (v : value) : M unit :=
  (if contains (relations m) name then raise (AttributeError name)
   else if contains (columns m) name then
     if contains (primary_keys m) name then raise (AttributeError name)
     else lift (validate_value name v AttributeErrorT)
   else ret tt);;
  store_attr l name v.

(** [Model.values] *)
Definition values_ (l : loc) : M pydict :=
  mapM (fun key => v ← getattr l key; ret (key, v)) (columns m).

(** [Model.changes] *)
Definition changes (l : loc) : M pydict :=
  values ← values_ l;
  i ← read_instance l;
  ret (List.filter (fun kv : string * value =>
                 negb (py_eqb (snd kv) (default VNone (start_values i !! fst kv))))
         values).

(** [Model.id] *)
Definition id_ (l : loc) : M pydict :=
  mapM (fun key =>
          values ← values_ l;
          match dict_get values key with
          | Some v => ret (key, v)
          | None => raise (KeyError key)
          end) (primary_keys m).

(** [ModelApi._results_to_models] *)
Definition _results_to_models (results : list (list value)) : M (list loc) :=
  mapM (fun item => __init__ item true) (map (dict_zip (columns m)) results).

(** [ModelApi.all] *)
Definition all (txn : option transaction) : M (list loc) :=
  results ← _execute_read (fun mode => Find mode (table m) (columns m) KeySetAll) txn;
  _results_to_models results.

(** The loop of [find_multi] that builds the key tuples. *)
Fixpoint key_values (keys : list pydict) : exc + list (list value) :=
  match keys with
  | [] => inr []
  | key :: rest =>
      match subscript_all key (primary_keys m) with
      | inl e => inl e
      | inr kv =>
          match key_values rest with
          | inl e => inl e
          | inr kvs => inr (kv :: kvs)
          end
      end
  end.

(** [ModelApi.find_multi] *)
Definition find_multi (txn : option transaction) (keys : list pydict) : M (list loc) :=
  kvs ← lift (key_values keys);
  results ← _execute_read
    (fun mode => Find mode (table m) (columns m) (KeySetKeys kvs)) txn;
  _results_to_models results.

(** [ModelApi.find] *)
Definition find (txn : option transaction) (keys : pydict) : M (option loc) :=
  resources ← find_multi txn [keys];
  ret (head resources).

(** [self.name(...)] for a method [name] of the class ([self.changes()],
    [self.id()], [self.spanner_api()]): an entry of [__dict__] under that
    name is found first, and calling the value it holds raises [TypeError];
    otherwise the method [body] runs. *)
Definition call_method {A} (l : loc) (name : string) (body : M A) : M A :=
  i ← read_instance l;
  match attrs i !! name with
  | Some v => raise (TypeError (NotCallable v))
  | None => body
  end.

(** Binding [**kwargs] in a call [f(transaction, **kwargs)] of a classmethod
    [f(cls, transaction=None, **rest)]: the first keyword that names [cls] or
    [transaction] is a second value for that parameter. *)
Definition bind_kwargs (kwargs : pydict) : exc + unit :=
  match List.find (contains ["cls"; "transaction"]) (dict_keys kwargs) with
  | Some parameter => inl (TypeError (MultipleValues parameter))
  | None => inr tt
  end.

(** [f(transaction, **kwargs)] *)
Definition call_kwargs {A} (f : pydict → M A) (kwargs : pydict) : M A :=
  lift (bind_kwargs kwargs);; f kwargs.

(** [Model.reload] *)
Definition reload (txn : option transaction) (l : loc) : M (option loc) :=
  ident ← call_method l "id" (id_ l);
  updated_object ← call_kwargs (find txn) ident;
  match updated_object with
  | None => ret None
  | Some u =>
      forM_ (fun column =>
               if contains (primary_keys m) column then ret tt
               else v ← getattr u column; __setattr__ l column v) (columns m);;
      set_persisted l true;;
      ret (Some l)
  end.

(** [Model.save] *)
Definition save (txn : option transaction) (l : loc) : M loc :=
  p ← get_persisted l;
  (if p : bool then
     changed_values ← call_method l "changes" (changes l);
     match changed_values with
     | [] => ret tt
     | _ :: _ =>
         ident ← call_method l "id" (id_ l);
         call_kwargs (update_ txn) (dict_update changed_values ident)
     end
   else
     values ← values_ l;
     call_kwargs (create txn) values;;
     set_persisted l true);;
  ret l.

(** [Model.delete] *)
Definition delete_ (txn : option transaction) (l : loc) : M unit :=
  key ← mapM (getattr l) (primary_keys m);
  call_method l "spanner_api"
    match txn with
    | Some t => call_api (Delete (InTransaction t) (table m) (KeySetKeys [key]));; ret tt
    | None => call_api (Delete RunWrite (table m) (KeySetKeys [key]));; ret tt
    end.

(** [ModelApi.delete_batch] *)
Definition delete_batch (txn : option transaction) (models : list loc) : M unit :=
  key_list ← mapM (fun model => mapM (getattr model) (primary_keys m)) models;
  match txn with
  | Some t => call_api (Delete (InTransaction t) (table m) (KeySetKeys key_list));; ret tt
  | None => call_api (Delete RunWrite (table m) (KeySetKeys key_list));; ret tt
  end.

(** *** Batched writes *)

(** [work[api_method].append(value)] on a [defaultdict(list)]: a new key is
    added after the existing ones. *)
Fixpoint work_append (work : list (api_method * list pydict))
    (k : api_method) (v : pydict) : list (api_method * list pydict) :=
  match work with
  | [] => [(k, [v])]
  | (k', vs) :: rest =>
      if decide (k' = k) then (k', vs ++ [v]) :: rest
      else (k', vs) :: work_append rest k v
  end.

(** One round of the first loop of [save_batch]. *)
Definition save_batch_step (force_write : bool)
    (work : list (api_method * list pydict)) (model : loc)
  : M (list (api_method * list pydict)) :=
  value ← mapM (fun column => v ← getattr model column; ret (column, v)) (columns m);
  method ← (if force_write then ret upsert
            else p ← get_persisted model; ret (if p : bool then update else insert));
  set_persisted model true;;
  ret (work_append work method value).

(** [ModelApi.save_batch] *)
Definition save_batch (txn : option transaction) (models : list loc)
    (force_write : bool) : M unit :=
  work ← foldM (save_batch_step force_write) [] models;
  forM_ (fun kv : api_method * list pydict => _execute_write (fst kv) txn (snd kv)) work.

(** *** Condition-based reads

    The [condition] and [query] modules are collaborators outside
    [model.py]. *)

(** Modelled from the spec: the two condition constructors of the condition
    DSL, [in_list(column, values)] and [equal_to(column, value)]. *)
Inductive Condition : Type :=
| in_list (column : string) (values : list value)
| equal_to (column : string) (v : value).

(** The query builders [query.SelectQuery(cls, conditions)] and
    [query.CountQuery(cls, conditions)]: query text, parameters, parameter
    types and the processing of the result rows. *)
Record QueryBuilder : Type := {
  builder_sql : list Condition -> string;
  builder_parameters : list Condition -> pydict;
  builder_types : list Condition -> list (string * field_type);
  process_results : list Condition -> list (list value) -> M (list loc);
  count_sql : list Condition -> string;
  count_parameters : list Condition -> pydict;
  count_types : list Condition -> list (string * field_type);
  count_process_results : list Condition -> list (list value) -> M Z }.

Context (query : QueryBuilder).

(** [ModelApi.where] *)
Definition where_ (txn : option transaction) (conditions : list Condition)
  : M (list loc) :=
  results ← _execute_read
    (fun mode => SqlQuery mode (builder_sql query conditions)
                   (builder_parameters query conditions)
                   (builder_types query conditions)) txn;
  process_results query conditions results.

(** [ModelApi.count] *)
Definition count (txn : option transaction) (conditions : list Condition) : M Z :=
  results ← _execute_read
    (fun mode => SqlQuery mode (count_sql query conditions)
                   (count_parameters query conditions)
                   (count_types query conditions)) txn;
  count_process_results query conditions results.

(** The loop shared by [where_equal] and [count_equal]: one condition is
    appended per keyword constraint. *)
Definition append_condition (conditions : list Condition)
    (constraint : string * value) : list Condition :=
  let '(column, v) := constraint in
  match v with
  | VList xs => conditions ++ [in_list column xs]
  | _ => conditions ++ [equal_to column v]
  end.

(** [ModelApi.where_equal] *)
Definition where_equal (txn : option transaction) (constraints : pydict)
  : M (list loc) :=
  where_ txn (fold_left append_condition constraints []).

(** [ModelApi.count_equal] *)
Definition count_equal (txn : option transaction) (constraints : pydict) : M Z :=
  count txn (fold_left append_condition constraints []).


(** *** Names derived from the table *)

(** [s.split(sep)] for a one-character separator: the pieces between the
    occurrences of [sep], in order; never an empty list. *)
Fixpoint split_on (sep : ascii) (s : string) : list string :=
  match s with
  | EmptyString => [EmptyString]
  | String c rest =>
      if Ascii.eqb c sep then EmptyString :: split_on sep rest
      else match split_on sep rest with
           | [] => [String c EmptyString]
           | piece :: pieces => String c piece :: pieces
           end
  end.

(** [ModelMetaclass.column_prefix]: [cls.table.split('.')[-1]] *)
Definition column_prefix : string :=
  List.last (split_on "."%char (table m)) EmptyString.

(** * Vocabulary of the properties

    Definitions the statements below are written with. They describe
    states and results; none of them is part of [model.py]. *)

(** The condition the specification assigns to one keyword constraint: a
    membership condition for a list value, an equality condition for any
    other value. *)
Definition condition_of (constraint : string * value) : Condition :=
  if is_list (snd constraint)
  then in_list (fst constraint)
         (match snd constraint with VList xs => xs | _ => [] end)
  else equal_to (fst constraint) (snd constraint).

(** A column's input value is rejected by the column's field. *)
Definition violates (values : pydict) (column : string) : Prop :=
  ∃ f, schema_get (fields m) column = Some f ∧
       validate f (get_default values column) = false.

(** The keys of a dictionary that are not declared columns. *)
Definition undeclared (d : pydict) : list string :=
  keys_difference (dict_keys d) (columns m).

(** A dictionary passes the three checks of the write loop against the
    shared column list [cols]. *)
Definition row_passes (cols : list string) (d : pydict) : Prop :=
  undeclared d = [] ∧ keys_eqb cols (dict_keys d) = true ∧
  validate_items d SpannerError = inr tt.

(** The row the loop appends for a dictionary. *)
Definition row_of (cols : list string) (d : pydict) : list value :=
  map (get_default d) cols.

(** The column list every dictionary is compared with: the first one's keys. *)
Definition shared_columns (ds : list pydict) : list string :=
  match ds with
  | [] => []
  | d :: _ => dict_keys d
  end.

(** How [_execute_write] reaches the API for a given [transaction] argument. *)
Definition write_mode (txn : option transaction) : txn_mode :=
  match txn with
  | Some t => InTransaction t
  | None => RunWrite
  end.

(** The single API call of a write whose dictionaries all pass. *)
Definition write_call (method : api_method) (txn : option transaction)
    (ds : list pydict) : api_call :=
  Write method (write_mode txn) (table m)
    (match ds with [] => None | _ :: _ => Some (shared_columns ds) end)
    (map (row_of (shared_columns ds)) ds).

(** The invariant [Model.__init__] establishes: every column has an entry in
    [__dict__]. *)
Definition has_columns (i : Instance) : Prop :=
  ∀ c, c ∈ columns m → is_Some (attrs i !! c).

(** [self.name] finds the method of the class: no entry of the object's
    [__dict__] is named [name] and shadows it. *)
Definition finds_method (i : Instance) (name : string) : Prop :=
  attrs i !! name = None.

(** The value of attribute [c] of an instance. *)
Definition attr (i : Instance) (c : string) : value :=
  default VNone (attrs i !! c).

(** The dictionary the [values] property returns for an instance. *)
Definition values_of (i : Instance) : pydict :=
  map (fun c => (c, attr i c)) (columns m).

(** The columns whose value differs from the baseline, as [changes()] lists
    them. *)
Definition changes_of (i : Instance) : pydict :=
  List.filter
    (fun kv : string * value =>
       negb (py_eqb (snd kv) (default VNone (start_values i !! fst kv))))
    (values_of i).

(** The primary-key part of the values, as [id()] returns it. *)
Definition id_of (i : Instance) : pydict :=
  map (fun k => (k, attr i k)) (primary_keys m).

(** A world with its heap replaced; database and trace are kept. *)
Definition with_heap (h : list Instance) (w : World) : World :=
  {| heap := h; db := db w; trace := trace w |}.

(** The operation kind chosen for an instance whose flag reads [flag]. *)
Definition route (force_write flag : bool) : api_method :=
  if force_write then upsert else if flag then update else insert.

(** The heap once the objects [ls] have had their flag set. *)
Definition marked (ls : list loc) (h : list Instance) : list Instance :=
  fold_left (fun h l => alter (set_flag true) l h) ls h.

(** The flag of the object at [l]. *)
Definition persisted_at (h : list Instance) (l : loc) : bool :=
  match h !! l with
  | Some i => _persisted i
  | None => false
  end.

(** The row [save_batch] builds for the object at [l]. *)
Definition values_at (h : list Instance) (l : loc) : pydict :=
  match h !! l with
  | Some i => values_of i
  | None => []
  end.

(** The routing of a batch, position by position: the kind depends on the
    flag as the loop finds it, which is already set when the same object
    occurred earlier in the list ([seen]). *)
Fixpoint routed (force_write : bool) (h : list Instance) (seen models : list loc)
  : list (api_method * pydict) :=
  match models with
  | [] => []
  | l :: rest =>
      (route force_write (persisted_at (marked seen h) l), values_at h l)
      :: routed force_write h (seen ++ [l]) rest
  end.

(** All rows routed to kind [k], in order. *)
Definition rows_for (k : api_method) (rs : list (api_method * pydict)) : list pydict :=
  map snd (List.filter (fun r => bool_decide (fst r = k)) rs).

(** The rows grouped under kind [k] in [work] (none when [k] is absent). *)
Definition work_get (work : list (api_method * list pydict)) (k : api_method)
  : list pydict :=
  match List.find (fun g => bool_decide (fst g = k)) work with
  | Some g => snd g
  | None => []
  end.

(** [work] after the routed rows [rs] have been appended one by one. *)
Definition build_work (rs : list (api_method * pydict))
    (work : list (api_method * list pydict)) : list (api_method * list pydict) :=
  fold_left (fun wk r => work_append wk (fst r) (snd r)) rs work.

(** What the first loop maintains about [work]: kinds are distinct and no
    group is empty. *)
Definition work_ok (work : list (api_method * list pydict)) : Prop :=
  NoDup (map fst work) ∧ ∀ g, g ∈ work → snd g ≠ [].

(** How [_execute_read] reaches the API for a given [transaction] argument. *)
Definition read_mode (txn : option transaction) : txn_mode :=
  match txn with
  | Some t => InTransaction t
  | None => RunReadOnly
  end.

(** The read [reload] issues for an instance. *)
Definition reload_call (txn : option transaction) (i : Instance) : api_call :=
  Find (read_mode txn) (table m) (columns m)
    (KeySetKeys [map (attr i) (primary_keys m)]).

(** The heap invariant: every object holds all its columns. *)
Definition all_columns (w : World) : Prop :=
  ∀ l i, heap w !! l = Some i → has_columns i.

(** A computation keeps the heap invariant, whether it returns or raises. *)
Definition preserves {A} (c : M A) : Prop :=
  ∀ w r w', all_columns w → c w = (r, w') → all_columns w'.

(** ** Effects of a computation *)

(** Every object of [w] is still there in [w'], with the baseline snapshot
    and the primary-key values it had. *)
Definition keeps_identity (w w' : World) : Prop :=
  ∀ l i, heap w !! l = Some i →
    ∃ i', heap w' !! l = Some i' ∧ start_values i' = start_values i ∧
          ∀ k, k ∈ primary_keys m → attrs i' !! k = attrs i !! k.

(** Whatever its outcome, the computation keeps the identity of every
    object and issues at most [n] API calls, each satisfying [P]; when it
    issues none the database is untouched. *)
Definition effect {A} (P : api_call → Prop) (n : nat) (c : M A) : Prop :=
  ∀ w r w', c w = (r, w') →
    keeps_identity w w' ∧
    ∃ cs, trace w' = trace w ++ cs ∧ (length cs ≤ n)%nat ∧ Forall P cs ∧
          (cs = [] → db w' = db w).

(** A write on the model's table with a method satisfying [Q], inside the
    caller's transaction when there is one and through [run_write]
    otherwise. *)
Definition is_write (txn : option transaction) (Q : api_method → Prop)
    (c : api_call) : Prop :=
  match c with
  | Write method mode tbl _ _ => mode = write_mode txn ∧ tbl = table m ∧ Q method
  | _ => False
  end.

(** A keyed or full read of all columns of the model's table, inside the
    caller's transaction when there is one and through [run_read_only]
    otherwise. *)
Definition is_find (txn : option transaction) (c : api_call) : Prop :=
  match c with
  | Find mode tbl cols _ => mode = read_mode txn ∧ tbl = table m ∧ cols = columns m
  | _ => False
  end.

(** A delete on the model's table, inside the caller's transaction when
    there is one and through [run_write] otherwise. *)
Definition is_delete (txn : option transaction) (c : api_call) : Prop :=
  match c with
  | Delete mode tbl _ => mode = write_mode txn ∧ tbl = table m
  | _ => False
  end.

(** The kinds [save_batch] may choose: upsert alone when forced, insert and
    update otherwise. *)
Definition batch_kind (force_write : bool) (k : api_method) : Prop :=
  if force_write then k = upsert else k ≠ upsert.

(** Between [w] and [w'] at most [n] API calls were issued, each satisfying
    [P]; when none was issued the database is untouched. *)
Definition issues (P : api_call → Prop) (n : nat) (w w' : World) : Prop :=
  ∃ cs, trace w' = trace w ++ cs ∧ (length cs ≤ n)%nat ∧ Forall P cs ∧
        (cs = [] → db w' = db w).

(** The primary-key tuple of the object at [l]. *)
Definition key_at (h : list Instance) (l : loc) : list value :=
  match h !! l with
  | Some i => map (attr i) (primary_keys m)
  | None => []
  end.

(** [delete] and [delete_batch] reach the API the way writes do. *)
Definition delete_call (txn : option transaction) (keys : list (list value)) : api_call :=
  Delete (write_mode txn) (table m) (KeySetKeys keys).

(** The world after one API call that moved the database to [d]. *)
Definition after_call (c : api_call) (d : DB api) (w : World) : World :=
  {| heap := heap w; db := d; trace := trace w ++ [c] |}.

(** The read [find_multi] issues for a list of key mappings. *)
Definition find_call (txn : option transaction) (keys : list pydict) : api_call :=
  Find (read_mode txn) (table m) (columns m)
    (KeySetKeys (map (fun key => map (get_default key) (primary_keys m)) keys)).

(** The object [_results_to_models] builds from a result row. *)
Definition model_of_row (row : list value) : Instance :=
  init_instance (dict_zip (columns m) row) true.

(** Every column value of the instance is accepted by the column's field. *)
Definition valid_values (i : Instance) : Prop :=
  ∀ c f, schema_get (fields m) c = Some f → validate f (attr i c) = true.

(** The value rows an API write carries. *)
Definition call_rows (c : api_call) : list (list value) :=
  match c with
  | Write _ _ _ _ values => values
  | _ => []
  end.

(** The full row of the object at [l]: its value for every column, in
    column order. *)
Definition row_at (h : list Instance) (l : loc) : list value :=
  row_of (columns m) (values_at h l).

(** A write of complete rows: the column list is the model's and every row
    has a value for every column. *)
Definition full_row_write (txn : option transaction) (c : api_call) : Prop :=
  ∃ k rows, c = Write k (write_mode txn) (table m) (Some (columns m)) rows ∧
            rows ≠ [] ∧ Forall (fun row => length row = length (columns m)) rows.

(** The names can be passed as keyword arguments next to [transaction]:
    none of them is [cls] or [transaction]. *)
Definition keyword_safe (names : list string) : Prop :=
  ("cls" ∉ names) ∧ ("transaction" ∉ names).

(** The character occurs in the string. *)
Fixpoint has_char (c : ascii) (s : string) : bool :=
  match s with
  | EmptyString => false
  | String c' rest => Ascii.eqb c' c || has_char c rest
  end.

(** * Properties *)

(** ** Lists of names and dictionaries *)

Lemma contains_elem_of (ks : list string) (k : string) :
  contains ks k = true ↔ k ∈ ks.
Proof.
  unfold contains. rewrite existsb_exists. split.
  - intros (x & Hx & He). apply String.eqb_eq in He. subst.
    by apply list_elem_of_In.
  - intros H. exists k. split; [by apply list_elem_of_In | apply String.eqb_refl].
Qed.

Lemma contains_false (ks : list string) (k : string) :
  contains ks k = false ↔ k ∉ ks.
Proof.
  rewrite <- contains_elem_of. destruct (contains ks k); split; congruence.
Qed.

Lemma primary_keys_columns (k : string) : k ∈ primary_keys m → k ∈ columns m.
Proof.
  unfold primary_keys, columns. intros H.
  apply list_elem_of_fmap in H as (nf & -> & Hnf).
  apply list_elem_of_fmap. exists nf. split; [done|].
  apply list_elem_of_In in Hnf. apply filter_In in Hnf as [Hnf _].
  by apply list_elem_of_In.
Qed.

Lemma dict_get_None (d : pydict) (k : string) :
  dict_get d k = None ↔ k ∉ dict_keys d.
Proof.
  induction d as [|[k' v] d IH]; simpl.
  - split; [intros _; apply not_elem_of_nil | done].
  - rewrite not_elem_of_cons. destruct (String.eqb_spec k' k) as [->|Hne].
    + split; [done | intros [? _]; done].
    + rewrite IH. split; [intros ?; split; [congruence | done] | intros [_ ?]; done].
Qed.

Lemma dict_get_is_Some (d : pydict) (k : string) :
  is_Some (dict_get d k) ↔ k ∈ dict_keys d.
Proof.
  destruct (dict_get d k) eqn:E.
  - split; [intros _ | eauto].
    destruct (decide (k ∈ dict_keys d)) as [|Hn]; [done|].
    apply dict_get_None in Hn. congruence.
  - split; [intros [? ?]; done|]. intros Hin. apply dict_get_None in E. done.
Qed.

(** ** C6: primary keys and relations cannot be assigned *)

(** C6. Assigning to a primary-key column or to a relation of any instance
    raises [AttributeError] for that name, whatever the value (also the one
    the attribute already holds), and leaves the whole world, hence the
    stored value, as it was. *)
Theorem setattr_key_or_relation_fails (l : loc) (name : string) (v : value) (w : World) :
  name ∈ primary_keys m ∨ name ∈ relations m →
  __setattr__ l name v w = (inl (AttributeError name), w).
Proof.
  intros H. unfold __setattr__, mbind, M_bind, bind.
  destruct (contains (relations m) name) eqn:Hrel; [done|].
  destruct H as [Hpk | Hr].
  - assert (contains (columns m) name = true) as ->
      by (apply contains_elem_of; by apply primary_keys_columns).
    assert (contains (primary_keys m) name = true) as ->
      by by apply contains_elem_of.
    done.
  - apply contains_elem_of in Hr. congruence.
Qed.

(** ** C10: keyed reads need every primary-key column *)

Lemma subscript_all_missing (d : pydict) (names : list string) :
  (∃ column, column ∈ names ∧ column ∉ dict_keys d) →
  ∃ column, column ∈ names ∧ (column ∉ dict_keys d) ∧
            subscript_all d names = inl (KeyError column).
Proof.
  induction names as [|c names IH]; intros (column & Hin & Hmiss).
  - by apply elem_of_nil in Hin.
  - simpl. destruct (dict_get d c) as [v|] eqn:E.
    + apply elem_of_cons in Hin as [->|Hin].
      { apply dict_get_None in Hmiss. congruence. }
      destruct IH as (c' & Hc' & Hm' & ->); [by eauto|].
      exists c'. split; [by right|]. done.
    + exists c. split; [by left|]. split; [by apply dict_get_None | done].
Qed.

Lemma subscript_all_error (d : pydict) (names : list string) (e : exc) :
  subscript_all d names = inl e →
  ∃ column, column ∈ names ∧ (column ∉ dict_keys d) ∧ e = KeyError column.
Proof.
  induction names as [|c names IH]; simpl; [done|].
  destruct (dict_get d c) as [v|] eqn:E.
  - destruct (subscript_all d names) as [e'|vs]; [|done].
    intros [= <-]. destruct IH as (c' & ? & ? & ?); [done|].
    exists c'. split; [by right|]. done.
  - intros [= <-]. exists c. split; [by left|].
    split; [by apply dict_get_None | done].
Qed.

Lemma key_values_missing (keys : list pydict) :
  (∃ key column, key ∈ keys ∧ column ∈ primary_keys m ∧ column ∉ dict_keys key) →
  ∃ column, column ∈ primary_keys m ∧ key_values keys = inl (KeyError column).
Proof.
  induction keys as [|key keys IH]; intros (k & column & Hk & Hc & Hmiss).
  - by apply elem_of_nil in Hk.
  - simpl. destruct (subscript_all key (primary_keys m)) as [e|kv] eqn:E.
    + apply subscript_all_error in E as (c & ? & ? & ->). by exists c.
    + apply elem_of_cons in Hk as [->|Hk].
      * destruct (subscript_all_missing key (primary_keys m)) as (c & ? & ? & E');
          [by eauto | congruence].
      * destruct IH as (c & ? & ->); [by eauto 6 | by exists c].
Qed.

(** C10. When some key mapping handed to [find_multi] lacks an entry for a
    primary-key column, the call raises [KeyError] for a primary-key column
    while the keyset is built; the world is returned unchanged, so no read
    has reached the API. The same holds for [find], whose keyword arguments
    are the single key mapping. *)
Theorem find_requires_primary_keys (txn : option transaction) (w : World) :
  (∀ keys : list pydict,
     (∃ key column, key ∈ keys ∧ column ∈ primary_keys m ∧ column ∉ dict_keys key) →
     ∃ column, column ∈ primary_keys m ∧
               find_multi txn keys w = (inl (KeyError column), w)) ∧
  (∀ kwargs : pydict,
     (∃ column, column ∈ primary_keys m ∧ column ∉ dict_keys kwargs) →
     ∃ column, column ∈ primary_keys m ∧
               find txn kwargs w = (inl (KeyError column), w)).
Proof.
  assert (∀ keys : list pydict,
     (∃ key column, key ∈ keys ∧ column ∈ primary_keys m ∧ column ∉ dict_keys key) →
     ∃ column, column ∈ primary_keys m ∧
               find_multi txn keys w = (inl (KeyError column), w)) as Hmulti.
  { intros keys H. apply key_values_missing in H as (c & Hc & E).
    exists c. split; [done|].
    unfold find_multi, mbind, M_bind, bind, lift. by rewrite E. }
  split; [done|].
  intros kwargs (column & Hc & Hmiss).
  destruct (Hmulti [kwargs]) as (c & ? & E).
  { exists kwargs, column. split; [by left | done]. }
  exists c. split; [done|].
  unfold find, mbind, M_bind, bind. by rewrite E.
Qed.

(** ** C8: the [*_equal] variants *)

Lemma fold_append_condition (constraints : pydict) (acc : list Condition) :
  fold_left append_condition constraints acc = acc ++ map condition_of constraints.
Proof.
  revert acc. induction constraints as [|[column v] cs IH]; intros acc; simpl.
  - by rewrite app_nil_r.
  - rewrite IH. unfold condition_of. destruct v; simpl; by rewrite <- app_assoc.
Qed.

(** C8. [where_equal] and [count_equal] turn the keyword constraints, in
    order, into one condition each ([in_list] for a list value, [equal_to]
    otherwise) and are exactly [where] and [count] on those conditions. *)
Theorem equal_variants_delegate (txn : option transaction) (constraints : pydict) :
  where_equal txn constraints = where_ txn (map condition_of constraints) ∧
  count_equal txn constraints = count txn (map condition_of constraints) ∧
  (∀ column xs, condition_of (column, VList xs) = in_list column xs) ∧
  (∀ column v, is_list v = false → condition_of (column, v) = equal_to column v).
Proof.
  unfold where_equal, count_equal. rewrite fold_append_condition. simpl.
  repeat split.
  intros column v Hv. unfold condition_of. simpl. by rewrite Hv.
Qed.

(** ** C7: construction *)

Lemma schema_get_is_Some (fs : list (string * Field)) (name : string) :
  is_Some (schema_get fs name) ↔ name ∈ map fst fs.
Proof.
  induction fs as [|[n f] fs IH]; simpl.
  - split; [intros [? ?]; done | intros H; by apply elem_of_nil in H].
  - rewrite elem_of_cons. destruct (String.eqb_spec n name) as [->|Hne].
    + split; [by left | eauto].
    + rewrite IH. split; [by right | intros [?|?]; congruence || done].
Qed.

Lemma keys_difference_spec (a b : list string) (k : string) :
  k ∈ keys_difference a b ↔ k ∈ a ∧ k ∉ b.
Proof.
  unfold keys_difference. rewrite !list_elem_of_In, filter_In.
  rewrite negb_true_iff, contains_false, list_elem_of_In. done.
Qed.

Lemma validate_columns_fail (values : pydict) (ty : error_type) (cols : list string) :
  (∀ c, c ∈ cols → c ∈ columns m) →
  (∃ column, column ∈ cols ∧ violates values column) →
  ∃ column f, column ∈ cols ∧ schema_get (fields m) column = Some f ∧
    validate f (get_default values column) = false ∧
    validate_items (map (fun c => (c, get_default values c)) cols) ty
    = inl (Validation ty f (get_default values column)).
Proof.
  induction cols as [|c cols IH]; intros Hsub (column & Hin & Hv).
  - by apply elem_of_nil in Hin.
  - simpl. unfold validate_value.
    destruct (schema_get_is_Some (fields m) c) as [_ [f Hf]].
    { apply Hsub. by left. }
    rewrite Hf. destruct (validate f (get_default values c)) eqn:Hc.
    + apply elem_of_cons in Hin as [->|Hin].
      { destruct Hv as (f' & Hf' & Hbad). congruence. }
      destruct IH as (c' & f' & ? & ? & ? & ->);
        [intros; apply Hsub; by right | by eauto |].
      exists c', f'. split; [by right|]. done.
    + exists c, f. split; [by left|]. done.
Qed.

Lemma validate_columns_ok (values : pydict) (ty : error_type) (cols : list string) :
  (∀ c, c ∈ cols → c ∈ columns m ∧ ¬ violates values c) →
  validate_items (map (fun c => (c, get_default values c)) cols) ty = inr tt.
Proof.
  induction cols as [|c cols IH]; intros H; simpl; [done|].
  destruct (H c) as [Hc Hok]; [by left|].
  unfold validate_value.
  destruct (schema_get_is_Some (fields m) c) as [_ [f Hf]]; [done|].
  rewrite Hf. destruct (validate f (get_default values c)) eqn:Hv.
  - apply IH. intros c' ?. apply H. by right.
  - destruct Hok. by exists f.
Qed.

(** C7 (as amended). Construction with [persisted = false] raises the
    missing-key error, listing exactly the primary-key columns absent from
    the input, whenever one is absent. When none is absent it raises the
    failure of the field validator as a [ValueError] whenever some declared
    column's value violates its field rule, in particular when a
    non-nullable field receives [None]: the error is the failure of the
    field of a violating column for the value that column was given, with
    the arguments the validator chose (the column is not named by
    [model.py]). It succeeds when no column violates its rule. Construction
    with [persisted = true] runs neither check: it always allocates the
    instance. *)
Theorem init_contract (values : pydict) (w : World) :
  let missing := keys_difference (primary_keys m) (dict_keys values) in
  (∀ k, k ∈ missing ↔ k ∈ primary_keys m ∧ k ∉ dict_keys values) ∧
  (missing ≠ [] → __init__ values false w = (inl (MissingKeys missing), w)) ∧
  (missing = [] →
     ((∃ column, column ∈ columns m ∧ violates values column) →
      ∃ column f, column ∈ columns m ∧ schema_get (fields m) column = Some f ∧
        validate f (get_default values column) = false ∧
        __init__ values false w
        = (inl (Validation ValueError f (get_default values column)), w)) ∧
     (∀ column f, column ∈ columns m → schema_get (fields m) column = Some f →
        nullable f = false → get_default values column = VNone →
        ∃ f' v, __init__ values false w = (inl (Validation ValueError f' v), w)) ∧
     ((∀ column, column ∈ columns m → ¬ violates values column) →
      __init__ values false w = alloc (init_instance values false) w)) ∧
  __init__ values true w = alloc (init_instance values true) w.
Proof.
  intros missing. split; [intros k; apply keys_difference_spec|].
  assert (missing = [] →
          (∃ column, column ∈ columns m ∧ violates values column) →
          ∃ column f, column ∈ columns m ∧ schema_get (fields m) column = Some f ∧
            validate f (get_default values column) = false ∧
            __init__ values false w
            = (inl (Validation ValueError f (get_default values column)), w))
    as Hbad.
  { intros Hmiss Hex.
    destruct (validate_columns_fail values ValueError (columns m))
      as (c & f & ? & ? & ? & E); [done | done |].
    exists c, f. repeat (split; [done|]).
    unfold __init__, mbind, M_bind, bind, lift, init_checks.
    fold missing. by rewrite Hmiss, E. }
  split; [|split; [|done]].
  - intros Hne. unfold __init__, mbind, M_bind, bind, lift, init_checks.
    fold missing. by destruct missing.
  - intros Hmiss. split; [by apply Hbad|]. split.
    + intros column f Hin Hf Hnull Hnone.
      destruct Hbad as (c & f' & _ & _ & _ & E); [done | |by eauto].
      exists column. split; [done|]. exists f. split; [done|].
      rewrite Hnone. done.
    + intros Hok. unfold __init__, mbind, M_bind, bind, lift, init_checks.
      fold missing. rewrite Hmiss, validate_columns_ok; [done|]. by auto.
Qed.

(** ** C5: the write primitive *)

Lemma keys_eqb_spec (a b : list string) :
  keys_eqb a b = true ↔ ∀ k, k ∈ a ↔ k ∈ b.
Proof.
  unfold keys_eqb. rewrite andb_true_iff, !forallb_forall. split.
  - intros [Hab Hba] k. split; intros Hk.
    + apply contains_elem_of, Hab. by apply list_elem_of_In.
    + apply contains_elem_of, Hba. by apply list_elem_of_In.
  - intros H. split; intros k Hk; apply contains_elem_of, H; by apply list_elem_of_In.
Qed.

Lemma subscript_all_ok (d : pydict) (names : list string) :
  (∀ c, c ∈ names → c ∈ dict_keys d) →
  subscript_all d names = inr (map (get_default d) names).
Proof.
  induction names as [|c names IH]; intros H; simpl; [done|].
  destruct (dict_get_is_Some d c) as [_ [v Hv]]; [apply H; by left|].
  rewrite IH by (intros; apply H; by right).
  unfold get_default. by rewrite Hv.
Qed.

Lemma validate_items_error (items : pydict) (ty : error_type) (e : exc) :
  (∀ k, k ∈ dict_keys items → k ∈ columns m) →
  validate_items items ty = inl e →
  ∃ k v f, (k, v) ∈ items ∧ schema_get (fields m) k = Some f ∧
           validate f v = false ∧ e = Validation ty f v.
Proof.
  induction items as [|[k v] items IH]; intros Hsub; simpl; [done|].
  unfold validate_value.
  destruct (schema_get_is_Some (fields m) k) as [_ [f Hf]].
  { apply Hsub. simpl. by left. }
  rewrite Hf. destruct (validate f v) eqn:Hv.
  - intros E. destruct IH as (k' & v' & f' & ? & ? & ? & ?); [|done|].
    { intros k' ?. apply Hsub. simpl. by right. }
    exists k', v', f'. split; [by right|]. done.
  - intros [= <-]. exists k, v, f. split; [by left|]. done.
Qed.

Lemma row_passes_cases (cols : list string) (d : pydict) :
  row_passes cols d ∨ ¬ row_passes cols d.
Proof.
  unfold row_passes.
  destruct (undeclared d); [|right; intros (? & _); done].
  destruct (keys_eqb cols (dict_keys d)); [|right; intros (_ & ? & _); done].
  destruct (validate_items d SpannerError) as [e|[]];
    [right; intros (_ & _ & ?); done | by left].
Qed.

Lemma write_rows_first (d : pydict) (rest : list pydict) (acc : list (list value)) :
  write_rows (d :: rest) None acc = write_rows (d :: rest) (Some (dict_keys d)) acc.
Proof. reflexivity. Qed.

Lemma write_rows_prefix (cols : list string) (pre rest : list pydict)
    (acc : list (list value)) :
  Forall (row_passes cols) pre →
  write_rows (pre ++ rest) (Some cols) acc
  = write_rows rest (Some cols) (acc ++ map (row_of cols) pre).
Proof.
  revert acc. induction pre as [|d pre IH]; intros acc Hall; simpl.
  - by rewrite app_nil_r.
  - apply Forall_cons in Hall as [(Hun & Heq & Hval) Hall].
    unfold undeclared in Hun. rewrite Hun, Heq, Hval. simpl.
    rewrite subscript_all_ok.
    + rewrite IH by done. by rewrite <- app_assoc.
    + intros c Hc. by apply (proj1 (keys_eqb_spec _ _) Heq).
Qed.

Lemma write_rows_failure (cols : list string) (d : pydict) (post : list pydict)
    (acc : list (list value)) :
  ¬ row_passes cols d →
  ∃ e, write_rows (d :: post) (Some cols) acc = inl e ∧
    (undeclared d ≠ [] → e = InvalidKeys (model_name m) (undeclared d)) ∧
    (undeclared d = [] → keys_eqb cols (dict_keys d) = false → e = MismatchedKeys) ∧
    (undeclared d = [] → keys_eqb cols (dict_keys d) = true →
       ∃ k v f, (k, v) ∈ d ∧ schema_get (fields m) k = Some f ∧
                validate f v = false ∧ e = Validation SpannerError f v).
Proof.
  intros Hfail. simpl. fold (undeclared d).
  destruct (undeclared d) as [|k ks] eqn:Hun.
  - destruct (keys_eqb cols (dict_keys d)) eqn:Heq; simpl.
    + destruct (validate_items d SpannerError) as [e|[]] eqn:Hval.
      * exists e. split; [done|]. split; [done|]. split; [done|].
        intros _ _. apply validate_items_error in Hval; [done|].
        intros k Hk. destruct (decide (k ∈ columns m)) as [|Hn]; [done|].
        assert (k ∈ undeclared d) as Hin by by apply keys_difference_spec.
        rewrite Hun in Hin. by apply elem_of_nil in Hin.
      * destruct Hfail. done.
    + exists MismatchedKeys. done.
  - exists (InvalidKeys (model_name m) (k :: ks)). done.
Qed.

Lemma first_failure {A} (P : A → Prop) (xs : list A) :
  (∀ x, P x ∨ ¬ P x) →
  Forall P xs ∨
  ∃ pre x post, xs = pre ++ x :: post ∧ Forall P pre ∧ ¬ P x.
Proof.
  intros Hdec. induction xs as [|x xs IH]; [by left|].
  destruct (Hdec x) as [Hx|Hx].
  - destruct IH as [Hall | (pre & y & post & -> & Hpre & Hy)].
    + left. by constructor.
    + right. exists (x :: pre), y, post. split; [done|]. split; [by constructor | done].
  - right. exists [], x, xs. done.
Qed.

Lemma execute_write_unfold (method : api_method) (txn : option transaction)
    (ds : list pydict) (w : World) :
  _execute_write method txn ds w
  = match write_rows ds None [] with
    | inl e => (inl e, w)
    | inr (cols, values) =>
        (call_api (Write method (write_mode txn) (table m) cols values);; ret tt) w
    end.
Proof.
  unfold _execute_write, mbind, M_bind, bind, lift.
  destruct (write_rows ds None []) as [e|[cols values]]; [done|].
  by destruct txn.
Qed.

Lemma trace_call_api (c : api_call) (w : World) :
  heap (snd (call_api c w)) = heap w ∧ trace (snd (call_api c w)) = trace w ++ [c].
Proof.
  unfold call_api. destruct (run_call api c (db w)) as [[e|rows] d]; done.
Qed.

Lemma write_rows_shared (ds : list pydict) :
  ds ≠ [] →
  write_rows ds None [] = write_rows ds (Some (shared_columns ds)) [].
Proof. destruct ds; [done | intros _; apply write_rows_first]. Qed.

Lemma execute_write_first_failure (method : api_method) (txn : option transaction)
    (ds pre post : list pydict) (d : pydict) (w : World) :
  ds = pre ++ d :: post →
  Forall (row_passes (shared_columns ds)) pre →
  ¬ row_passes (shared_columns ds) d →
  ∃ e, _execute_write method txn ds w = (inl e, w) ∧
    (undeclared d ≠ [] → e = InvalidKeys (model_name m) (undeclared d)) ∧
    (undeclared d = [] → keys_eqb (shared_columns ds) (dict_keys d) = false →
       e = MismatchedKeys) ∧
    (undeclared d = [] → keys_eqb (shared_columns ds) (dict_keys d) = true →
       ∃ k v f, (k, v) ∈ d ∧ schema_get (fields m) k = Some f ∧
                validate f v = false ∧ e = Validation SpannerError f v).
Proof.
  intros Hds Hpre Hd. set (cols := shared_columns ds) in *.
  destruct (write_rows_failure cols d post ([] ++ map (row_of cols) pre) Hd)
    as (e & E & Hcases).
  exists e. split; [|done].
  rewrite execute_write_unfold, write_rows_shared by (rewrite Hds; by destruct pre).
  fold cols. rewrite Hds, write_rows_prefix by done. by rewrite E.
Qed.

Lemma execute_write_failure (method : api_method) (txn : option transaction)
    (ds : list pydict) (w : World) :
  ¬ Forall (row_passes (shared_columns ds)) ds →
  ∃ e, _execute_write method txn ds w = (inl e, w).
Proof.
  intros Hnot.
  destruct (first_failure (row_passes (shared_columns ds)) ds
              (row_passes_cases (shared_columns ds)))
    as [?|(pre & d & post & Hds & Hpre & Hd)]; [done|].
  destruct (execute_write_first_failure method txn ds pre post d w Hds Hpre Hd)
    as (e & E & _).
  by exists e.
Qed.

Lemma execute_write_all_pass (method : api_method) (txn : option transaction)
    (ds : list pydict) (w : World) :
  Forall (row_passes (shared_columns ds)) ds →
  _execute_write method txn ds w = (call_api (write_call method txn ds);; ret tt) w.
Proof.
  intros Hall. rewrite execute_write_unfold. destruct ds as [|d ds']; [done|].
  rewrite write_rows_shared by done.
  rewrite <- (app_nil_r (d :: ds')) at 1.
  rewrite write_rows_prefix by done. done.
Qed.

Lemma execute_write_heap (method : api_method) (txn : option transaction)
    (ds : list pydict) (w : World) :
  heap (snd (_execute_write method txn ds w)) = heap w.
Proof.
  rewrite execute_write_unfold.
  destruct (write_rows ds None []) as [e|[cols values]]; [done|].
  unfold mbind, M_bind, bind.
  pose proof (trace_call_api (Write method (write_mode txn) (table m) cols values) w)
    as [Hh _].
  by destruct (call_api _ w) as [[e|rows] w'].
Qed.

(** C5 (as amended). The write primitive checks the dictionaries one at a
    time, in order, against the declared columns, against the key set of the
    first dictionary and against the field validator; the first dictionary
    that fails a check decides the error (undeclared keys: the invalid-keys
    error naming them and the model; else a different key set: the
    mismatched-keys error; else a rejected value: the validation error), and
    any failure leaves the world untouched, so no write is issued. When
    every dictionary passes, exactly one API write is issued; its value
    matrix has one row per dictionary, each ordered by, and as long as, the
    shared column list. *)
Theorem execute_write_contract (method : api_method) (txn : option transaction)
    (ds : list pydict) (w : World) :
  let cols := shared_columns ds in
  (∀ d k, k ∈ undeclared d ↔ k ∈ dict_keys d ∧ k ∉ columns m) ∧
  (∀ d, keys_eqb cols (dict_keys d) = true ↔ ∀ k, k ∈ cols ↔ k ∈ dict_keys d) ∧
  (∀ pre d post,
     ds = pre ++ d :: post → Forall (row_passes cols) pre → ¬ row_passes cols d →
     ∃ e, _execute_write method txn ds w = (inl e, w) ∧
       (undeclared d ≠ [] → e = InvalidKeys (model_name m) (undeclared d)) ∧
       (undeclared d = [] → keys_eqb cols (dict_keys d) = false →
          e = MismatchedKeys) ∧
       (undeclared d = [] → keys_eqb cols (dict_keys d) = true →
          ∃ k v f, (k, v) ∈ d ∧ schema_get (fields m) k = Some f ∧
                   validate f v = false ∧ e = Validation SpannerError f v)) ∧
  (¬ Forall (row_passes cols) ds →
     ∃ e, _execute_write method txn ds w = (inl e, w)) ∧
  (Forall (row_passes cols) ds →
     let values := map (row_of cols) ds in
     let call :=
       Write method (write_mode txn) (table m)
         (match ds with [] => None | _ :: _ => Some cols end) values in
     _execute_write method txn ds w = (call_api call;; ret tt) w ∧
     trace (snd (_execute_write method txn ds w)) = trace w ++ [call] ∧
     length values = length ds ∧
     Forall (fun row => length row = length cols) values).
Proof.
  intros cols.
  split; [intros d k; apply keys_difference_spec|].
  split; [intros d; apply keys_eqb_spec|].
  split; [|split].
  - intros pre d post. apply execute_write_first_failure.
  - apply execute_write_failure.
  - intros Hall values call.
    pose proof (execute_write_all_pass method txn ds w Hall) as E.
    split; [done|]. split.
    + rewrite E. unfold mbind, M_bind, bind, ret.
      pose proof (trace_call_api call w) as [_ Ht].
      by destruct (call_api _ w) as [[e|rows] w'].
    + split; [apply length_map|].
      apply Forall_forall. intros row Hrow. unfold values in Hrow.
      apply list_elem_of_fmap in Hrow as (d & -> & _). apply length_map.
Qed.

(** ** Instances in the heap *)

Ltac munfold :=
  unfold mbind, M_bind, mret, M_ret, bind, ret, lift, raise in *.

Lemma mapM_cons {A B} (f : A → M B) (x : A) (xs : list A) (w : World) :
  mapM f (x :: xs) w
  = match f x w with
    | (inl e, w1) => (inl e, w1)
    | (inr y, w1) =>
        match mapM f xs w1 with
        | (inl e, w2) => (inl e, w2)
        | (inr ys, w2) => (inr (y :: ys), w2)
        end
    end.
Proof.
  simpl. munfold. destruct (f x w) as [[e|y] w1]; [done|].
  by destruct (mapM f xs w1) as [[e|ys] w2].
Qed.

Lemma forM_cons {A} (f : A → M unit) (x : A) (xs : list A) (w : World) :
  forM_ f (x :: xs) w
  = match f x w with
    | (inl e, w1) => (inl e, w1)
    | (inr _, w1) => forM_ f xs w1
    end.
Proof. reflexivity. Qed.

Lemma read_instance_run (l : loc) (i : Instance) (w : World) :
  heap w !! l = Some i → read_instance l w = (inr i, w).
Proof. intros H. unfold read_instance. by rewrite H. Qed.

Lemma getattr_run (l : loc) (i : Instance) (c : string) (w : World) :
  heap w !! l = Some i → is_Some (attrs i !! c) →
  getattr l c w = (inr (attr i c), w).
Proof.
  intros H [v Hv]. unfold getattr. munfold.
  rewrite (read_instance_run l i w H). unfold attr. by rewrite Hv.
Qed.

Lemma get_persisted_run (l : loc) (i : Instance) (w : World) :
  heap w !! l = Some i → get_persisted l w = (inr (_persisted i), w).
Proof.
  intros H. unfold get_persisted. munfold. by rewrite (read_instance_run l i w H).
Qed.

Lemma set_persisted_run (l : loc) (i : Instance) (p : bool) (w : World) :
  heap w !! l = Some i →
  set_persisted l p w = (inr tt, with_heap (<[l := set_flag p i]> (heap w)) w).
Proof.
  intros H. unfold set_persisted. munfold. by rewrite (read_instance_run l i w H).
Qed.

Lemma columns_run (l : loc) (i : Instance) (w : World) (cols : list string) :
  heap w !! l = Some i → (∀ c, c ∈ cols → is_Some (attrs i !! c)) →
  mapM (fun key => v ← getattr l key; ret (key, v)) cols w
  = (inr (map (fun c => (c, attr i c)) cols), w).
Proof.
  intros H. induction cols as [|c cols IH]; intros Hc; simpl; [done|].
  munfold. rewrite (getattr_run l i c w H) by (apply Hc; by left).
  rewrite IH by (intros; apply Hc; by right). done.
Qed.

Lemma values_run (l : loc) (i : Instance) (w : World) :
  heap w !! l = Some i → has_columns i → values_ l w = (inr (values_of i), w).
Proof. intros H Hc. by apply columns_run. Qed.

Lemma changes_run (l : loc) (i : Instance) (w : World) :
  heap w !! l = Some i → has_columns i → changes l w = (inr (changes_of i), w).
Proof.
  intros H Hc. unfold changes. munfold.
  rewrite (values_run l i w H Hc), (read_instance_run l i w H). done.
Qed.

Lemma dict_get_columns (g : string → value) (cols : list string) (k : string) :
  k ∈ cols → dict_get (map (fun c => (c, g c)) cols) k = Some (g k).
Proof.
  induction cols as [|c cols IH]; intros Hk; [by apply elem_of_nil in Hk|].
  simpl. destruct (String.eqb_spec c k) as [->|Hne]; [done|].
  apply IH. apply elem_of_cons in Hk as [?|?]; [congruence | done].
Qed.

Lemma id_run (l : loc) (i : Instance) (w : World) :
  heap w !! l = Some i → has_columns i → id_ l w = (inr (id_of i), w).
Proof.
  intros H Hc. unfold id_, id_of.
  assert (∀ keys : list string, (∀ k, k ∈ keys → k ∈ columns m) →
    mapM (fun key =>
            values ← values_ l;
            match dict_get values key with
            | Some v => ret (key, v)
            | None => raise (KeyError key)
            end) keys w
    = (inr (map (fun k => (k, attr i k)) keys), w)) as Hkeys.
  { induction keys as [|k keys IH]; intros Hsub; simpl; [done|].
    munfold. rewrite (values_run l i w H Hc).
    unfold values_of. rewrite dict_get_columns by (apply Hsub; by left).
    rewrite IH by (intros; apply Hsub; by right). done. }
  apply Hkeys. apply primary_keys_columns.
Qed.

Lemma fold_insert_lookup (g : string → value) (cols : list string)
    (acc : gmap string value) (c : string) :
  fold_left (fun acc column => <[column := g column]> acc) cols acc !! c
  = if contains cols c then Some (g c) else acc !! c.
Proof.
  revert acc. induction cols as [|c0 cols IH]; intros acc; simpl; [done|].
  rewrite IH. destruct (String.eqb_spec c c0) as [->|Hne]; simpl.
  - rewrite lookup_insert_eq. by destruct (contains cols c0).
  - rewrite lookup_insert_ne by done. done.
Qed.

Lemma init_instance_attrs (values : pydict) (p : bool) (c : string) :
  c ∈ columns m → attrs (init_instance values p) !! c = Some (get_default values c).
Proof.
  intros Hc. unfold init_instance. simpl.
  set (from_columns := fold_left _ (columns m) ∅).
  assert (from_columns !! c = Some (get_default values c)) as H0.
  { unfold from_columns. rewrite fold_insert_lookup.
    by rewrite (proj2 (contains_elem_of _ _) Hc). }
  clearbody from_columns. revert from_columns H0.
  induction (relations m) as [|r rels IH]; intros acc H0; simpl; [done|].
  apply IH. destruct (dict_get values r) as [v|] eqn:E; [|done].
  destruct (decide (r = c)) as [->|Hne].
  - rewrite lookup_insert_eq. unfold get_default. by rewrite E.
  - by rewrite lookup_insert_ne.
Qed.

Lemma init_instance_has_columns (values : pydict) (p : bool) :
  has_columns (init_instance values p).
Proof. intros c Hc. rewrite init_instance_attrs by done. eauto. Qed.

Lemma has_columns_set_attr (name : string) (v : value) (i : Instance) :
  has_columns i → has_columns (set_attr name v i).
Proof.
  intros H c Hc. simpl. destruct (decide (name = c)) as [->|Hne].
  - rewrite lookup_insert_eq. eauto.
  - rewrite lookup_insert_ne by done. by apply H.
Qed.

Lemma has_columns_set_flag (p : bool) (i : Instance) :
  has_columns i → has_columns (set_flag p i).
Proof. done. Qed.

Lemma changes_of_set_flag (p : bool) (i : Instance) :
  changes_of (set_flag p i) = changes_of i.
Proof. done. Qed.

(** ** Calls that depend on names *)

Lemma call_method_run {A} (l : loc) (i : Instance) (name : string) (body : M A)
    (w : World) :
  heap w !! l = Some i →
  call_method l name body w
  = match attrs i !! name with
    | Some v => (inl (TypeError (NotCallable v)), w)
    | None => body w
    end.
Proof.
  intros H. unfold call_method. munfold. rewrite (read_instance_run l i w H).
  by destruct (attrs i !! name).
Qed.

Lemma call_kwargs_run {A} (f : pydict → M A) (kwargs : pydict) (w : World) :
  call_kwargs f kwargs w
  = match bind_kwargs kwargs with
    | inl e => (inl e, w)
    | inr _ => f kwargs w
    end.
Proof. unfold call_kwargs. munfold. by destruct (bind_kwargs kwargs) as [e|[]]. Qed.

Lemma bind_kwargs_ok (kwargs : pydict) :
  "cls" ∉ dict_keys kwargs → "transaction" ∉ dict_keys kwargs →
  bind_kwargs kwargs = inr tt.
Proof.
  intros Hcls Htxn. unfold bind_kwargs.
  destruct (List.find _ (dict_keys kwargs)) as [p|] eqn:E; [|done].
  apply find_some in E as [Hin Hp]. apply list_elem_of_In in Hin.
  apply contains_elem_of in Hp.
  apply elem_of_cons in Hp as [->|Hp]; [done|].
  apply list_elem_of_singleton in Hp as ->. done.
Qed.

Lemma bind_kwargs_error (kwargs : pydict) (e : exc) :
  bind_kwargs kwargs = inl e →
  ∃ parameter, e = TypeError (MultipleValues parameter) ∧
               parameter ∈ dict_keys kwargs ∧
               (parameter = "cls" ∨ parameter = "transaction").
Proof.
  unfold bind_kwargs.
  destruct (List.find _ (dict_keys kwargs)) as [p|] eqn:E; [|done].
  intros [= <-]. exists p. split; [done|].
  apply find_some in E as [Hin Hp]. apply list_elem_of_In in Hin.
  split; [done|]. apply contains_elem_of in Hp.
  apply elem_of_cons in Hp as [->|Hp]; [by left|].
  apply list_elem_of_singleton in Hp as ->. by right.
Qed.

Lemma bind_kwargs_clash (kwargs : pydict) :
  ("cls" ∈ dict_keys kwargs ∨ "transaction" ∈ dict_keys kwargs) →
  ∃ parameter, bind_kwargs kwargs = inl (TypeError (MultipleValues parameter)).
Proof.
  intros H. unfold bind_kwargs.
  destruct (List.find _ (dict_keys kwargs)) as [p|] eqn:E; [by exists p|].
  exfalso. destruct H as [H|H]; apply list_elem_of_In in H;
    apply (find_none _ _ E) in H; discriminate H.
Qed.

(** ** C1 and C4: [save] *)

Lemma execute_write_success (method : api_method) (txn : option transaction)
    (ds : list pydict) (w w1 : World) (u : unit) :
  _execute_write method txn ds w = (inr u, w1) →
  Forall (row_passes (shared_columns ds)) ds ∧
  heap w1 = heap w ∧
  trace w1 = trace w ++ [write_call method txn ds].
Proof.
  intros E.
  destruct (first_failure (row_passes (shared_columns ds)) ds
              (row_passes_cases (shared_columns ds)))
    as [Hall|(pre & d & post & Hds & Hpre & Hd)].
  - split; [done|].
    rewrite (execute_write_all_pass method txn ds w Hall) in E. munfold.
    pose proof (trace_call_api (write_call method txn ds) w) as [Hh Ht].
    destruct (call_api _ w) as [[e|rows] w']; [done|].
    by injection E as _ <-.
  - destruct (execute_write_first_failure method txn ds pre post d w Hds Hpre Hd)
      as (e & E' & _).
    congruence.
Qed.

Lemma save_shadowed (txn : option transaction) (l : loc) (i : Instance)
    (v : value) (w : World) :
  heap w !! l = Some i → _persisted i = true → attrs i !! "changes" = Some v →
  save txn l w = (inl (TypeError (NotCallable v)), w).
Proof.
  intros H Hp Hv. unfold save. munfold.
  rewrite (get_persisted_run l i w H), Hp.
  by rewrite (call_method_run l i "changes" (changes l) w H), Hv.
Qed.

Lemma save_persisted_clean (txn : option transaction) (l : loc) (i : Instance)
    (w : World) :
  heap w !! l = Some i → has_columns i → _persisted i = true →
  finds_method i "changes" →
  changes_of i = [] → save txn l w = (inr l, w).
Proof.
  intros H Hc Hp Hm Hch. unfold save. munfold.
  rewrite (get_persisted_run l i w H), Hp.
  rewrite (call_method_run l i "changes" (changes l) w H), Hm.
  rewrite (changes_run l i w H Hc), Hch. done.
Qed.

Lemma save_persisted_dirty (txn : option transaction) (l : loc) (i : Instance)
    (w : World) :
  heap w !! l = Some i → has_columns i → _persisted i = true →
  finds_method i "changes" →
  changes_of i ≠ [] →
  save txn l w
  = match attrs i !! "id" with
    | Some v => (inl (TypeError (NotCallable v)), w)
    | None =>
        match bind_kwargs (dict_update (changes_of i) (id_of i)) with
        | inl e => (inl e, w)
        | inr _ =>
            (_execute_write update txn [dict_update (changes_of i) (id_of i)];; ret l) w
        end
    end.
Proof.
  intros H Hc Hp Hm Hch. unfold save, update_. munfold.
  rewrite (get_persisted_run l i w H), Hp.
  rewrite (call_method_run l i "changes" (changes l) w H), Hm.
  rewrite (changes_run l i w H Hc).
  destruct (changes_of i) as [|kv kvs] eqn:E; [done|].
  rewrite (call_method_run l i "id" (id_ l) w H).
  destruct (attrs i !! "id"); [done|].
  rewrite (id_run l i w H Hc), call_kwargs_run.
  destruct (bind_kwargs _) as [e|[]]; [done|].
  by destruct (_execute_write _ _ _ w) as [[e|u] w1].
Qed.

Lemma save_fresh (txn : option transaction) (l : loc) (i : Instance) (w : World) :
  heap w !! l = Some i → has_columns i → _persisted i = false →
  save txn l w
  = match bind_kwargs (values_of i) with
    | inl e => (inl e, w)
    | inr _ =>
        (_execute_write insert txn [values_of i];; set_persisted l true;; ret l) w
    end.
Proof.
  intros H Hc Hp. unfold save, create. munfold.
  rewrite (get_persisted_run l i w H), Hp, (values_run l i w H Hc), call_kwargs_run.
  destruct (bind_kwargs _) as [e|[]]; [done|].
  destruct (_execute_write _ _ _ w) as [[e|u] w1]; [done|].
  by destruct (set_persisted l true w1) as [[e|u'] w2].
Qed.

Lemma save_heap (txn : option transaction) (l : loc) (i : Instance) (w : World) :
  heap w !! l = Some i → has_columns i →
  ∃ p, heap (snd (save txn l w)) !! l = Some (set_flag p i).
Proof.
  intros H Hc. destruct (_persisted i) eqn:Hp.
  - exists true. replace (set_flag true i) with i by (destruct i; simpl in *; by subst).
    destruct (attrs i !! "changes") as [v|] eqn:Hm;
      [by rewrite (save_shadowed txn l i v w)|].
    destruct (changes_of i) as [|kv kvs] eqn:E.
    + by rewrite (save_persisted_clean txn l i w).
    + rewrite (save_persisted_dirty txn l i w) by (done || by rewrite E).
      destruct (attrs i !! "id"); [done|].
      destruct (bind_kwargs _) as [e|[]]; [done|].
      munfold.
      pose proof (execute_write_heap update txn
                    [dict_update (changes_of i) (id_of i)] w) as Hh.
      rewrite E in *. destruct (_execute_write _ _ _ w) as [[e|u] w']; simpl in *;
        by rewrite Hh.
  - rewrite (save_fresh txn l i w) by done.
    destruct (bind_kwargs _) as [e|[]].
    { exists false.
      replace (set_flag false i) with i by (destruct i; simpl in *; by subst).
      done. }
    munfold.
    pose proof (execute_write_heap insert txn [values_of i] w) as Hh.
    destruct (_execute_write _ _ _ w) as [[e|u] w']; simpl in *.
    + exists false.
      replace (set_flag false i) with i by (destruct i; simpl in *; by subst).
      by rewrite Hh.
    + exists true. rewrite (set_persisted_run l i true w') by by rewrite Hh.
      simpl. rewrite Hh. apply list_lookup_insert_eq. by eapply lookup_lt_Some.
Qed.


Lemma dict_keys_values_of (i : Instance) : dict_keys (values_of i) = columns m.
Proof.
  unfold dict_keys, values_of. rewrite map_map. simpl. apply map_id.
Qed.

Lemma row_of_values_of (i : Instance) :
  row_of (columns m) (values_of i) = map (attr i) (columns m).
Proof.
  unfold row_of. apply map_ext_in. intros c Hc. apply list_elem_of_In in Hc.
  unfold get_default, values_of. by rewrite dict_get_columns.
Qed.

Lemma py_eqb_refl (v : value) : py_eqb v v = true.
Proof.
  revert v. fix IH 1. intros [|b|z|s|xs]; simpl.
  - reflexivity.
  - by destruct b.
  - apply Z.eqb_refl.
  - apply String.eqb_refl.
  - induction xs as [|x xs IHxs]; [reflexivity|].
    rewrite IH. exact IHxs.
Qed.

(** An instance as [__init__] leaves it reports no change. *)
Lemma changes_of_init_instance (values : pydict) (p : bool) :
  changes_of (init_instance values p) = [].
Proof.
  unfold changes_of, values_of.
  assert (∀ cols, (∀ c, c ∈ cols → c ∈ columns m) →
    List.filter
      (fun kv : string * value =>
         negb (py_eqb (snd kv)
                 (default VNone (start_values (init_instance values p) !! fst kv))))
      (map (fun c => (c, attr (init_instance values p) c)) cols) = []) as H.
  { induction cols as [|c cols IH]; intros Hsub; simpl; [reflexivity|].
    assert (c ∈ columns m) as Hc by (apply Hsub; by left).
    unfold attr at 1. rewrite init_instance_attrs by done.
    rewrite fold_insert_lookup, (proj2 (contains_elem_of _ _) Hc). simpl.
    rewrite py_eqb_refl. simpl. apply IH. intros; apply Hsub; by right. }
  by apply H.
Qed.

Lemma save_clean_unchanged (txn : option transaction) (l : loc) (i : Instance)
    (w : World) :
  heap w !! l = Some i → has_columns i → _persisted i = true →
  changes_of i = [] →
  snd (save txn l w) = w ∧ (finds_method i "changes" → fst (save txn l w) = inr l).
Proof.
  intros H Hc Hp Hch. unfold finds_method.
  destruct (attrs i !! "changes") as [v|] eqn:Hm.
  - by rewrite (save_shadowed txn l i v w).
  - by rewrite (save_persisted_clean txn l i w).
Qed.


(** ** C3 and C9: [save_batch] *)

Lemma work_append_keys work k v k' :
  k' ∈ map fst (work_append work k v) ↔ k' = k ∨ k' ∈ map fst work.
Proof.
  induction work as [|[k0 vs] work IH]; simpl.
  - rewrite elem_of_cons. split; [intros [?|H]; [by left | by right] | ].
    intros [?|H]; [by left | by right].
  - destruct (decide (k0 = k)) as [->|Hne]; simpl.
    + rewrite !elem_of_cons. tauto.
    + rewrite !elem_of_cons, IH. tauto.
Qed.

Lemma work_append_ok work k v : work_ok work → work_ok (work_append work k v).
Proof.
  intros [Hnd Hne]. induction work as [|[k0 vs] work IH]; simpl.
  - split; [repeat constructor; apply not_elem_of_nil|].
    intros g Hg. apply list_elem_of_singleton in Hg as ->. done.
  - simpl in Hnd. apply NoDup_cons in Hnd as [Hk0 Hnd].
    destruct IH as [IHnd IHne]; [done | intros g Hg; apply Hne; by right|].
    destruct (decide (k0 = k)) as [->|Hk]; simpl.
    + split; [by apply NoDup_cons|].
      intros g Hg. apply elem_of_cons in Hg as [->|Hg]; simpl.
      * by destruct vs.
      * apply Hne. by right.
    + split.
      * apply NoDup_cons. split; [|done].
        rewrite work_append_keys. intros [?|?]; congruence || done.
      * intros g Hg. apply elem_of_cons in Hg as [->|Hg]; simpl.
        -- apply (Hne (k0, vs)). by left.
        -- by apply IHne.
Qed.

Lemma work_get_append work k v k' :
  work_get (work_append work k v) k'
  = work_get work k' ++ (if decide (k = k') then [v] else []).
Proof.
  unfold work_get. induction work as [|[k0 vs] work IH]; simpl.
  - destruct (decide (k = k')) as [->|Hne].
    + by rewrite bool_decide_eq_true_2.
    + by rewrite bool_decide_eq_false_2.
  - destruct (decide (k0 = k)) as [->|Hk]; simpl.
    + destruct (decide (k = k')) as [->|Hne].
      * by rewrite bool_decide_eq_true_2.
      * rewrite bool_decide_eq_false_2 by done. by rewrite app_nil_r.
    + destruct (decide (k0 = k')) as [->|Hk'].
      * rewrite bool_decide_eq_true_2 by done. simpl.
        destruct (decide (k = k')); [congruence|]. by rewrite app_nil_r.
      * rewrite bool_decide_eq_false_2 by done. apply IH.
Qed.

Lemma build_work_ok rs work : work_ok work → work_ok (build_work rs work).
Proof.
  revert work. induction rs as [|r rs IH]; intros work H; simpl; [done|].
  apply IH. by apply work_append_ok.
Qed.

Lemma work_get_build rs work k :
  work_get (build_work rs work) k = work_get work k ++ rows_for k rs.
Proof.
  revert work. induction rs as [|[k0 v] rs IH]; intros work; simpl.
  - by rewrite app_nil_r.
  - unfold build_work in IH. rewrite IH, work_get_append. unfold rows_for. simpl.
    destruct (decide (k0 = k)) as [->|Hne].
    + rewrite bool_decide_eq_true_2 by done. simpl. by rewrite <- app_assoc.
    + rewrite bool_decide_eq_false_2 by done. by rewrite app_nil_r.
Qed.

Lemma work_get_elem_of work k rows :
  work_ok work → (k, rows) ∈ work ↔ work_get work k = rows ∧ rows ≠ [].
Proof.
  intros [Hnd Hne]. unfold work_get.
  induction work as [|[k0 vs] work IH]; simpl.
  - split; [intros H; by apply elem_of_nil in H | intros [<- ?]; done].
  - simpl in Hnd. apply NoDup_cons in Hnd as [Hk0 Hnd].
    rewrite elem_of_cons.
    destruct (decide (k0 = k)) as [->|Hk].
    + rewrite bool_decide_eq_true_2 by done. simpl. split.
      * intros [[= <-]|Hin].
        -- split; [done|]. apply (Hne (k, rows)). by left.
        -- destruct Hk0. apply list_elem_of_fmap. by exists (k, rows).
      * intros [<- _]. by left.
    + rewrite bool_decide_eq_false_2 by done.
      rewrite <- IH; [|done | intros g Hg; apply Hne; by right].
      split; [intros [[= ? ?]|?]; [congruence | done] | by right].
Qed.

Lemma marked_lookup (ls : list loc) (h : list Instance) (l : loc) :
  marked ls h !! l
  = if bool_decide (l ∈ ls) then set_flag true <$> h !! l else h !! l.
Proof.
  unfold marked. revert h. induction ls as [|a ls IH]; intros h; simpl; [done|].
  rewrite IH. destruct (decide (a = l)) as [->|Hne].
  - rewrite list_lookup_alter_eq.
    rewrite (bool_decide_eq_true_2 (l ∈ l :: ls)) by by left.
    destruct (bool_decide (l ∈ ls)); by destruct (h !! l).
  - rewrite list_lookup_alter_ne by done.
    destruct (decide (l ∈ ls)) as [Hin|Hnin].
    + rewrite !bool_decide_eq_true_2; [done | by right | done].
    + rewrite !bool_decide_eq_false_2; [done | | done].
      rewrite not_elem_of_cons. split; [congruence | done].
Qed.

Lemma marked_snoc (ls : list loc) (l : loc) (h : list Instance) (i : Instance) :
  marked ls h !! l = Some i →
  <[l := set_flag true i]> (marked ls h) = marked (ls ++ [l]) h.
Proof.
  intros H. unfold marked at 2. rewrite fold_left_app. simpl.
  fold (marked ls h). apply list_eq. intros j.
  destruct (decide (l = j)) as [<-|Hne].
  - rewrite list_lookup_alter_eq, H.
    rewrite list_lookup_insert_eq by by eapply lookup_lt_Some. done.
  - by rewrite list_lookup_insert_ne, list_lookup_alter_ne.
Qed.

Lemma marked_persisted (ls : list loc) (h : list Instance) (l : loc) (i : Instance) :
  h !! l = Some i → l ∈ ls →
  ∃ i', marked ls h !! l = Some i' ∧ _persisted i' = true.
Proof.
  intros H Hin. exists (set_flag true i).
  rewrite marked_lookup, bool_decide_eq_true_2, H by done. done.
Qed.

Section Batch.

Context (h0 : list Instance) (force_write : bool).

Lemma save_batch_step_run (seen : list loc) (work : list (api_method * list pydict))
    (l : loc) (i : Instance) (w : World) :
  heap w = marked seen h0 → h0 !! l = Some i → has_columns i →
  save_batch_step force_write work l w
  = (inr (work_append work
            (route force_write (persisted_at (marked seen h0) l)) (values_at h0 l)),
     with_heap (marked (seen ++ [l]) h0) w).
Proof.
  intros Hw Hl Hc.
  pose (i' := if bool_decide (l ∈ seen) then set_flag true i else i).
  assert (heap w !! l = Some i') as Hi'.
  { rewrite Hw, marked_lookup, Hl. unfold i'. by destruct (bool_decide _). }
  assert (has_columns i') as Hc' by (unfold i'; by destruct (bool_decide _)).
  assert (values_of i' = values_of i) as Hv by (unfold i'; by destruct (bool_decide _)).
  unfold save_batch_step. change (mapM _ (columns m)) with (values_ l). munfold.
  rewrite (values_run l i' w Hi' Hc'), Hv.
  unfold values_at, persisted_at. rewrite Hl, <- Hw, Hi'.
  destruct force_write; simpl.
  - rewrite (set_persisted_run l i' true w Hi'). rewrite Hw at 1.
    rewrite marked_snoc by by rewrite <- Hw. done.
  - rewrite (get_persisted_run l i' w Hi'), (set_persisted_run l i' true w Hi').
    rewrite Hw at 1. rewrite marked_snoc by by rewrite <- Hw. done.
Qed.

Lemma partition_run (models seen : list loc) (work : list (api_method * list pydict))
    (w : World) :
  heap w = marked seen h0 →
  (∀ l, l ∈ models → ∃ i, h0 !! l = Some i ∧ has_columns i) →
  foldM (save_batch_step force_write) work models w
  = (inr (build_work (routed force_write h0 seen models) work),
     with_heap (marked (seen ++ models) h0) w).
Proof.
  revert seen work w. induction models as [|l models IH]; intros seen work w Hw Hall.
  - simpl. rewrite app_nil_r, <- Hw. by destruct w.
  - destruct (Hall l) as (i & Hl & Hc); [by left|].
    simpl. munfold. rewrite (save_batch_step_run seen work l i w Hw Hl Hc).
    rewrite (IH (seen ++ [l])); [| done | intros; apply Hall; by right].
    by rewrite <- app_assoc.
Qed.

End Batch.

Lemma writes_heap (txn : option transaction) (work : list (api_method * list pydict))
    (w : World) :
  heap (snd (forM_ (fun kv : api_method * list pydict =>
                      _execute_write (fst kv) txn (snd kv)) work w)) = heap w.
Proof.
  revert w. induction work as [|[k rows] work IH]; intros w; simpl; [done|].
  munfold. pose proof (execute_write_heap k txn rows w) as Hh.
  destruct (_execute_write k txn rows w) as [[e|u] w1]; simpl in *; [done|].
  by rewrite IH.
Qed.

Lemma writes_trace (txn : option transaction) (work : list (api_method * list pydict))
    (w w' : World) (u : unit) :
  forM_ (fun kv : api_method * list pydict =>
           _execute_write (fst kv) txn (snd kv)) work w = (inr u, w') →
  trace w' = trace w ++ map (fun kv => write_call (fst kv) txn (snd kv)) work.
Proof.
  revert w. induction work as [|[k rows] work IH]; intros w; simpl.
  - munfold. intros E. assert (w = w') as <- by congruence. by rewrite app_nil_r.
  - munfold. destruct (_execute_write k txn rows w) as [[e|u1] w1] eqn:E; [done|].
    intros Hrest. apply execute_write_success in E as (_ & _ & Ht).
    rewrite (IH w1 Hrest), Ht, <- app_assoc. done.
Qed.

Lemma save_batch_unfold (txn : option transaction) (models : list loc)
    (force_write : bool) (w : World) :
  (∀ l, l ∈ models → ∃ i, heap w !! l = Some i ∧ has_columns i) →
  save_batch txn models force_write w
  = forM_ (fun kv : api_method * list pydict => _execute_write (fst kv) txn (snd kv))
      (build_work (routed force_write (heap w) [] models) [])
      (with_heap (marked models (heap w)) w).
Proof.
  intros Hall. unfold save_batch. munfold.
  rewrite (partition_run (heap w) force_write models [] [] w); done.
Qed.

Lemma routed_distinct (force_write : bool) (h : list Instance) (seen models : list loc) :
  NoDup models → (∀ l, l ∈ models → l ∉ seen) →
  routed force_write h seen models
  = map (fun l => (route force_write (persisted_at h l), values_at h l)) models.
Proof.
  revert seen. induction models as [|l models IH]; intros seen Hnd Hseen; simpl; [done|].
  apply NoDup_cons in Hnd as [Hl Hnd]. f_equal.
  - unfold persisted_at. rewrite marked_lookup, bool_decide_eq_false_2; [done|].
    apply Hseen. by left.
  - apply IH; [done|]. intros l' Hl'. rewrite elem_of_app, list_elem_of_singleton.
    intros [?|Heq]; [eapply Hseen; [by right | done]|]. by subst.
Qed.

Lemma routed_lookup (force_write : bool) (h : list Instance)
    (seen pre post : list loc) (l : loc) :
  routed force_write h seen (pre ++ l :: post) !! length pre
  = Some (route force_write (persisted_at (marked (seen ++ pre) h) l), values_at h l).
Proof.
  revert seen. induction pre as [|a pre IH]; intros seen; simpl.
  - by rewrite app_nil_r.
  - rewrite IH. by rewrite <- app_assoc.
Qed.

Lemma persisted_at_marked (ls : list loc) (h : list Instance) (l : loc) :
  is_Some (h !! l) →
  persisted_at (marked ls h) l = bool_decide (l ∈ ls) || persisted_at h l.
Proof.
  intros [i Hi]. unfold persisted_at. rewrite marked_lookup, Hi.
  by destruct (bool_decide (l ∈ ls)).
Qed.

Lemma routed_rows (force_write : bool) (h : list Instance) (seen models : list loc) :
  map snd (routed force_write h seen models) = map (values_at h) models.
Proof.
  revert seen. induction models as [|l models IH]; intros seen; simpl; [done|].
  by rewrite IH.
Qed.

Lemma routed_forced (h : list Instance) (seen models : list loc) (r : api_method * pydict) :
  r ∈ routed true h seen models → fst r = upsert.
Proof.
  revert seen. induction models as [|l models IH]; intros seen; simpl.
  - intros H. by apply elem_of_nil in H.
  - intros H. apply elem_of_cons in H as [->|H]; [done | by eapply IH].
Qed.

Lemma build_work_single (k : api_method) (rs : list (api_method * pydict))
    (acc : list pydict) :
  (∀ r, r ∈ rs → fst r = k) →
  build_work rs [(k, acc)] = [(k, acc ++ map snd rs)].
Proof.
  revert acc. induction rs as [|[k' v] rs IH]; intros acc Hk; simpl.
  - by rewrite app_nil_r.
  - assert (k' = k) as -> by (apply (Hk (k', v)); by left).
    destruct (decide (k = k)); [|done].
    unfold build_work in IH. rewrite IH by (intros; apply Hk; by right).
    by rewrite <- app_assoc.
Qed.



(** ** C2: [reload] *)

Lemma execute_read_unfold (db_api : txn_mode → api_call) (txn : option transaction) :
  _execute_read db_api txn = call_api (db_api (read_mode txn)).
Proof. by destruct txn. Qed.

Lemma call_api_frame (c : api_call) (w w1 : World) (r : exc + list (list value)) :
  call_api c w = (r, w1) →
  heap w1 = heap w ∧ trace w1 = trace w ++ [c] ∧
  (∀ rows, r = inr rows → fst (run_call api c (db w)) = inr rows).
Proof.
  unfold call_api. destruct (run_call api c (db w)) as [[e|rows] d];
    intros [= <- <-]; simpl; (split; [done|]); (split; [done|]); congruence.
Qed.

Lemma results_to_models_run (results : list (list value)) (w : World) :
  _results_to_models results w
  = (inr (seq (length (heap w)) (length results)),
     with_heap
       (heap w ++ map (fun row => init_instance (dict_zip (columns m) row) true) results)
       w).
Proof.
  unfold _results_to_models. revert w.
  induction results as [|row results IH]; intros w.
  - simpl. rewrite app_nil_r. by destruct w.
  - change (map (dict_zip (columns m)) (row :: results))
      with (dict_zip (columns m) row :: map (dict_zip (columns m)) results).
    rewrite mapM_cons. unfold __init__ at 1, alloc at 1. munfold.
    rewrite IH. simpl.
    rewrite length_app. simpl.
    replace (length (heap w) + 1)%nat with (S (length (heap w))) by lia.
    by rewrite <- app_assoc.
Qed.

Lemma id_of_subscript (i : Instance) :
  subscript_all (id_of i) (primary_keys m) = inr (map (attr i) (primary_keys m)).
Proof.
  rewrite subscript_all_ok.
  - f_equal. apply map_ext_in. intros k Hk. apply list_elem_of_In in Hk.
    unfold get_default, id_of. by rewrite dict_get_columns.
  - intros c Hc. unfold dict_keys, id_of. rewrite map_map. simpl. by rewrite map_id.
Qed.

Lemma find_run (txn : option transaction) (l : loc) (i : Instance) (w : World) :
  find txn (id_of i) w
  = match call_api (reload_call txn i) w with
    | (inl e, w1) => (inl e, w1)
    | (inr rows, w1) =>
        (inr (head (seq (length (heap w1)) (length rows))),
         with_heap
           (heap w1 ++ map (fun row => init_instance (dict_zip (columns m) row) true) rows)
           w1)
    end.
Proof.
  unfold find, find_multi. munfold. simpl. rewrite id_of_subscript.
  rewrite execute_read_unfold. fold (reload_call txn i).
  destruct (call_api (reload_call txn i) w) as [[e|rows] w1]; [done|].
  by rewrite results_to_models_run.
Qed.

Lemma store_attr_run (l : loc) (i : Instance) (name : string) (v : value) (w : World) :
  heap w !! l = Some i →
  store_attr l name v w
  = if contains (columns m) name
    then (inr tt, with_heap (<[l := set_attr name v i]> (heap w)) w)
    else if contains read_only_names name then (inl (ReadOnly name), w)
    else if contains typed_names name then (inl (TypeError (NotAssignable name v)), w)
    else if String.eqb name "_persisted"
    then (inr tt, with_heap (<[l := set_flag (truthy v) i]> (heap w)) w)
    else if String.eqb name "start_values" then (inl Unrepresentable, w)
    else (inr tt, with_heap (<[l := set_attr name v i]> (heap w)) w).
Proof.
  intros H. unfold store_attr. munfold. rewrite (read_instance_run l i w H).
  destruct (contains (columns m) name); [done|].
  destruct (contains read_only_names name); [done|].
  destruct (contains typed_names name); [done|].
  destruct (String.eqb name "_persisted"); [done|].
  by destruct (String.eqb name "start_values").
Qed.

Lemma setattr_success (l : loc) (i : Instance) (c : string) (v : value) (w w' : World) :
  heap w !! l = Some i → c ∈ columns m →
  __setattr__ l c v w = (inr tt, w') →
  w' = with_heap (<[l := set_attr c v i]> (heap w)) w.
Proof.
  intros H Hc. unfold __setattr__. munfold.
  destruct (contains (relations m) c); [by intros [=]|].
  rewrite (proj2 (contains_elem_of _ _) Hc).
  destruct (contains (primary_keys m) c); [by intros [=]|].
  destruct (validate_value c v AttributeErrorT) as [e|[]]; [by intros [=]|].
  rewrite (store_attr_run l i c v w H), (proj2 (contains_elem_of _ _) Hc).
  by intros [= <-].
Qed.

Lemma reload_loop (u l : loc) (iu : Instance) (cols : list string) :
  u ≠ l → (∀ c, c ∈ cols → is_Some (attrs iu !! c)) →
  (∀ c, c ∈ cols → c ∈ columns m) →
  ∀ (w1 w2 : World) (i1 : Instance),
    heap w1 !! l = Some i1 → heap w1 !! u = Some iu →
    forM_ (fun column =>
             if contains (primary_keys m) column then ret tt
             else v ← getattr u column; __setattr__ l column v) cols w1
    = (inr tt, w2) →
    ∃ i2, heap w2 = <[l := i2]> (heap w1) ∧ db w2 = db w1 ∧ trace w2 = trace w1 ∧
          start_values i2 = start_values i1 ∧ _persisted i2 = _persisted i1 ∧
          ∀ c, attrs i2 !! c
               = if contains cols c && negb (contains (primary_keys m) c)
                 then Some (attr iu c) else attrs i1 !! c.
Proof.
  intros Hne. induction cols as [|c cols IH]; intros Hcols Hsub w1 w2 i1 Hl Hu.
  - simpl. munfold. intros [= <-]. exists i1.
    rewrite list_insert_id by done. done.
  - rewrite forM_cons. destruct (contains (primary_keys m) c) eqn:Hpk.
    + munfold. intros Hrest.
      destruct (IH (fun c' H => Hcols c' (list_elem_of_further _ _ _ H))
                  (fun c' H => Hsub c' (list_elem_of_further _ _ _ H))
                  w1 w2 i1 Hl Hu Hrest)
        as (i2 & ? & ? & ? & ? & ? & Hattrs).
      exists i2. repeat (split; [done|]). intros c'. rewrite Hattrs. simpl.
      destruct (String.eqb_spec c' c) as [->|?]; simpl; [|done].
      rewrite Hpk. simpl. by rewrite andb_false_r.
    + munfold. rewrite (getattr_run u iu c w1 Hu) by (apply Hcols; by left).
      destruct (__setattr__ l c (attr iu c) w1) as [[e|[]] w1'] eqn:Eset; [done|].
      apply (setattr_success l i1) in Eset; [|done|apply Hsub; by left].
      subst w1'. intros Hrest.
      destruct (IH (fun c' H => Hcols c' (list_elem_of_further _ _ _ H))
                  (fun c' H => Hsub c' (list_elem_of_further _ _ _ H))
                  (with_heap (<[l:=set_attr c (attr iu c) i1]> (heap w1)) w1)
                  w2 (set_attr c (attr iu c) i1))
        as (i2 & Hh & ? & ? & ? & ? & Hattrs); [| |done|].
      { simpl. apply list_lookup_insert_eq. by eapply lookup_lt_Some. }
      { simpl. by rewrite list_lookup_insert_ne. }
      exists i2. simpl in *. rewrite list_insert_insert_eq in Hh.
      repeat (split; [done|]). intros c'. rewrite Hattrs. simpl.
      destruct (String.eqb_spec c' c) as [->|Hc']; simpl.
      * rewrite Hpk. simpl. rewrite lookup_insert_eq.
        by destruct (contains cols c).
      * by rewrite lookup_insert_ne.
Qed.


(** ** The heap invariant

    Every object [__init__] allocates holds all its columns, and no method
    removes an attribute: the hypothesis [has_columns] of the statements
    above holds for every object of a heap built by the methods. *)

Lemma preserves_ret {A} (a : A) : preserves (ret a).
Proof. intros w r w' H [= <- <-]. done. Qed.

Lemma preserves_raise {A} (e : exc) : preserves (raise e : M A).
Proof. intros w r w' H [= <- <-]. done. Qed.

Lemma preserves_lift {A} (x : exc + A) : preserves (lift x).
Proof. intros w r w' H [= <- <-]. done. Qed.

Lemma preserves_bind {A B} (c : M A) (k : A → M B) :
  preserves c → (∀ a, preserves (k a)) → preserves (bind c k).
Proof.
  intros Hc Hk w r w' H. unfold bind.
  destruct (c w) as [[e|a] w1] eqn:E.
  - intros [= <- <-]. by eapply Hc.
  - intros E'. eapply Hk; [|done]. by eapply Hc.
Qed.

Lemma preserves_mapM {A B} (f : A → M B) (xs : list A) :
  (∀ x, preserves (f x)) → preserves (mapM f xs).
Proof.
  intros Hf. induction xs as [|x xs IH]; simpl; [apply preserves_ret|].
  apply preserves_bind; [done|]. intros y.
  apply preserves_bind; [done|]. intros ys. apply preserves_ret.
Qed.

Lemma preserves_forM {A} (f : A → M unit) (xs : list A) :
  (∀ x, preserves (f x)) → preserves (forM_ f xs).
Proof.
  intros Hf. induction xs as [|x xs IH]; simpl; [apply preserves_ret|].
  apply preserves_bind; [done|]. by intros _.
Qed.

Lemma preserves_foldM {A S} (f : S → A → M S) (xs : list A) (s : S) :
  (∀ s x, preserves (f s x)) → preserves (foldM f s xs).
Proof.
  intros Hf. revert s. induction xs as [|x xs IH]; intros s; simpl;
    [apply preserves_ret|].
  apply preserves_bind; [done|]. intros s'. apply IH.
Qed.

Lemma preserves_read (l : loc) : preserves (read_instance l).
Proof.
  intros w r w' H. unfold read_instance.
  destruct (heap w !! l); intros [= <- <-]; done.
Qed.

Lemma preserves_call_api (c : api_call) : preserves (call_api c).
Proof.
  intros w r w' H E. apply call_api_frame in E as (Hh & _).
  intros l i. rewrite Hh. apply H.
Qed.

Lemma preserves_alloc (i : Instance) : has_columns i → preserves (alloc i).
Proof.
  intros Hi w r w' H [= <- <-] l i'. simpl.
  intros [?|[_ Hl]]%lookup_app_Some; [by eapply H|].
  apply list_lookup_singleton_Some in Hl as [_ <-]. done.
Qed.

Lemma preserves_update (l : loc) (g : Instance → Instance) :
  (∀ i, has_columns i → has_columns (g i)) →
  preserves (i ← read_instance l; write_instance l (g i)).
Proof.
  intros Hg w r w' H. unfold mbind, M_bind, bind, read_instance, write_instance.
  destruct (heap w !! l) as [i|] eqn:Hl; intros [= <- <-]; [|done].
  intros l' i'. simpl. destruct (decide (l = l')) as [<-|Hne].
  - rewrite list_lookup_insert_eq by by eapply lookup_lt_Some.
    intros [= <-]. apply Hg. by eapply H.
  - rewrite list_lookup_insert_ne by done. apply H.
Qed.

Ltac preserves_step :=
  first
    [ apply preserves_ret | apply preserves_raise | apply preserves_lift
    | apply preserves_read | apply preserves_call_api
    | apply preserves_mapM; intros ? | apply preserves_forM; intros ?
    | apply preserves_foldM; intros ? ?
    | apply preserves_bind; [|intros ?] ].

Lemma preserves_set_persisted (l : loc) (p : bool) : preserves (set_persisted l p).
Proof. apply preserves_update. intros i. apply has_columns_set_flag. Qed.

Lemma preserves_getattr (l : loc) (name : string) : preserves (getattr l name).
Proof.
  unfold getattr, mbind, M_bind. apply preserves_bind; [apply preserves_read|].
  intros i. destruct (attrs i !! name); preserves_step.
Qed.

Lemma all_columns_insert (l : loc) (j : Instance) (w : World) :
  all_columns w → has_columns j → all_columns (with_heap (<[l := j]> (heap w)) w).
Proof.
  intros H Hj l' i'. simpl.
  intros [(_ & <- & _)|[_ Hl]]%list_lookup_insert_Some; [done | by eapply H].
Qed.

Lemma preserves_store (l : loc) (name : string) (v : value) :
  preserves (store_attr l name v).
Proof.
  intros w r w' H. destruct (heap w !! l) as [i|] eqn:Hl.
  - rewrite (store_attr_run l i name v w Hl).
    pose proof (H l i Hl) as Hi.
    destruct (contains (columns m) name);
      [intros [= <- <-]; by apply all_columns_insert, has_columns_set_attr|].
    destruct (contains read_only_names name); [by intros [= <- <-]|].
    destruct (contains typed_names name); [by intros [= <- <-]|].
    destruct (String.eqb name "_persisted");
      [intros [= <- <-]; by apply all_columns_insert, has_columns_set_flag|].
    destruct (String.eqb name "start_values"); [by intros [= <- <-]|].
    intros [= <- <-]. by apply all_columns_insert, has_columns_set_attr.
  - unfold store_attr, read_instance. munfold. rewrite Hl. by intros [= <- <-].
Qed.

Lemma preserves_setattr (l : loc) (name : string) (v : value) :
  preserves (__setattr__ l name v).
Proof.
  unfold __setattr__, mbind at 1, M_bind at 1. apply preserves_bind.
  - repeat match goal with |- context [if ?b then _ else _] => destruct b end;
      preserves_step.
  - intros _. apply preserves_store.
Qed.

Lemma preserves_init (values : pydict) (p : bool) : preserves (__init__ values p).
Proof.
  unfold __init__, mbind, M_bind. apply preserves_bind.
  - destruct p; preserves_step.
  - intros _. apply preserves_alloc, init_instance_has_columns.
Qed.

Lemma preserves_execute_write (method : api_method) (txn : option transaction)
    (ds : list pydict) : preserves (_execute_write method txn ds).
Proof.
  unfold _execute_write, mbind, M_bind. apply preserves_bind; [preserves_step|].
  intros [cols values]. destruct txn; repeat preserves_step.
Qed.

Lemma preserves_values (l : loc) : preserves (values_ l).
Proof.
  unfold values_, mbind, M_bind. preserves_step.
  apply preserves_bind; [apply preserves_getattr | intros ?; preserves_step].
Qed.

Lemma preserves_changes (l : loc) : preserves (changes l).
Proof.
  unfold changes, mbind, M_bind.
  apply preserves_bind; [apply preserves_values|]. intros ?. repeat preserves_step.
Qed.

Lemma preserves_id (l : loc) : preserves (id_ l).
Proof.
  unfold id_, mbind, M_bind. preserves_step.
  apply preserves_bind; [apply preserves_values|]. intros values.
  destruct (dict_get values _); preserves_step.
Qed.

Lemma preserves_find_multi (txn : option transaction) (keys : list pydict) :
  preserves (find_multi txn keys).
Proof.
  unfold find_multi, _results_to_models, mbind, M_bind.
  apply preserves_bind; [preserves_step|]. intros kvs.
  apply preserves_bind; [rewrite execute_read_unfold; preserves_step|].
  intros results. preserves_step. apply preserves_init.
Qed.

Lemma preserves_call_method {A} (l : loc) (name : string) (body : M A) :
  preserves body → preserves (call_method l name body).
Proof.
  intros Hb. unfold call_method, mbind, M_bind.
  apply preserves_bind; [apply preserves_read|]. intros i.
  destruct (attrs i !! name); [preserves_step | done].
Qed.

Lemma preserves_call_kwargs {A} (f : pydict → M A) (kwargs : pydict) :
  preserves (f kwargs) → preserves (call_kwargs f kwargs).
Proof.
  intros Hf. unfold call_kwargs, mbind, M_bind.
  apply preserves_bind; [preserves_step | by intros _].
Qed.

(** Every method keeps the heap invariant, whether it returns or raises. *)
Lemma methods_preserve_columns (txn : option transaction) (l : loc) :
  (∀ values p, preserves (__init__ values p)) ∧
  (∀ name v, preserves (__setattr__ l name v)) ∧
  preserves (save txn l) ∧
  preserves (reload txn l) ∧
  (∀ models force_write, preserves (save_batch txn models force_write)) ∧
  (∀ keys, preserves (find_multi txn keys)).
Proof.
  split; [apply preserves_init|]. split; [apply preserves_setattr|].
  split; [|split; [|split; [|apply preserves_find_multi]]].
  - unfold save, create, update_, mbind, M_bind.
    apply preserves_bind; [unfold get_persisted, mbind, M_bind; repeat preserves_step|].
    intros p. apply preserves_bind; [|intros; preserves_step].
    destruct p.
    + apply preserves_bind; [apply preserves_call_method, preserves_changes|].
      intros [|kv kvs]; [preserves_step|].
      apply preserves_bind; [apply preserves_call_method, preserves_id|]. intros ?.
      apply preserves_call_kwargs, preserves_execute_write.
    + apply preserves_bind; [apply preserves_values|]. intros ?.
      apply preserves_bind;
        [apply preserves_call_kwargs, preserves_execute_write|]. intros _.
      apply preserves_set_persisted.
  - unfold reload, find, mbind, M_bind.
    apply preserves_bind; [apply preserves_call_method, preserves_id|]. intros ident.
    apply preserves_bind.
    { apply preserves_call_kwargs.
      apply preserves_bind; [apply preserves_find_multi | intros ?; preserves_step]. }
    intros [u|]; [|preserves_step].
    apply preserves_bind.
    { preserves_step. destruct (contains _ _); [preserves_step|].
      apply preserves_bind; [apply preserves_getattr|]. intros ?.
      apply preserves_setattr. }
    intros _. apply preserves_bind; [apply preserves_set_persisted|].
    intros _. preserves_step.
  - intros models force_write. unfold save_batch, save_batch_step, mbind, M_bind.
    apply preserves_bind.
    + preserves_step.
      apply preserves_bind.
      { preserves_step. apply preserves_bind; [apply preserves_getattr|].
        intros ?. preserves_step. }
      intros ?. apply preserves_bind.
      { destruct force_write; [preserves_step|].
        apply preserves_bind; [|intros ?; preserves_step].
        unfold get_persisted, mbind, M_bind. repeat preserves_step. }
      intros ?. apply preserves_bind; [apply preserves_set_persisted|].
      intros _. preserves_step.
    + intros work. preserves_step. apply preserves_execute_write.
Qed.

(** * Further properties of the module *)

(** ** Effects: composition rules *)

Lemma keeps_identity_refl (w : World) : keeps_identity w w.
Proof. intros l i H. by exists i. Qed.

Lemma keeps_identity_trans (w1 w2 w3 : World) :
  keeps_identity w1 w2 → keeps_identity w2 w3 → keeps_identity w1 w3.
Proof.
  intros H12 H23 l i Hl.
  destruct (H12 l i Hl) as (i2 & Hl2 & Hs2 & Hk2).
  destruct (H23 l i2 Hl2) as (i3 & Hl3 & Hs3 & Hk3).
  exists i3. split; [done|]. split; [congruence|].
  intros k Hk. rewrite Hk3, Hk2; done.
Qed.

Lemma keeps_identity_heap (w w' : World) : heap w' = heap w → keeps_identity w w'.
Proof. intros Hh l i H. exists i. by rewrite Hh. Qed.

Lemma effect_pure {A} (P : api_call → Prop) (x : exc + A) :
  effect P 0 (fun w => (x, w)).
Proof.
  intros w r w' [= <- <-]. split; [apply keeps_identity_refl|].
  exists []. rewrite app_nil_r. done.
Qed.

Lemma effect_ret {A} (P : api_call → Prop) (a : A) : effect P 0 (ret a).
Proof. apply effect_pure. Qed.

Lemma effect_raise {A} (P : api_call → Prop) (e : exc) : effect P 0 (raise e : M A).
Proof. apply effect_pure. Qed.

Lemma effect_lift {A} (P : api_call → Prop) (x : exc + A) : effect P 0 (lift x).
Proof. apply effect_pure. Qed.

Lemma effect_weaken {A} (P P' : api_call → Prop) (n n' : nat) (c : M A) :
  (∀ x, P x → P' x) → (n ≤ n')%nat → effect P n c → effect P' n' c.
Proof.
  intros HP Hn H w r w' E. destruct (H w r w' E) as (Hid & cs & Ht & Hlen & Hall & Hdb).
  split; [done|]. exists cs. split; [done|]. split; [lia|]. split; [|done].
  eapply Forall_impl; [done | by auto].
Qed.

Lemma effect_bind {A B} (P : api_call → Prop) (n1 n2 : nat) (c : M A) (k : A → M B) :
  effect P n1 c → (∀ a, effect P n2 (k a)) → effect P (n1 + n2) (bind c k).
Proof.
  intros Hc Hk w r w'. unfold bind.
  destruct (c w) as [[e|a] w1] eqn:E.
  - intros [= <- <-]. destruct (Hc w _ _ E) as (Hid & cs & Ht & Hlen & Hall & Hdb).
    split; [done|]. exists cs. split; [done|]. split; [lia | done].
  - intros E'. destruct (Hc w _ _ E) as (Hid & cs & Ht & Hlen & Hall & Hdb).
    destruct (Hk a w1 _ _ E') as (Hid' & cs' & Ht' & Hlen' & Hall' & Hdb').
    split; [by eapply keeps_identity_trans|].
    exists (cs ++ cs'). split; [by rewrite Ht', Ht, <- app_assoc|].
    split; [rewrite length_app; lia|]. split; [by apply Forall_app|].
    intros [-> ->]%app_eq_nil. rewrite Hdb', Hdb; done.
Qed.

Lemma effect_mapM {A B} (P : api_call → Prop) (f : A → M B) (xs : list A) :
  (∀ x, effect P 0 (f x)) → effect P 0 (mapM f xs).
Proof.
  intros Hf. induction xs as [|x xs IH]; simpl; [apply effect_ret|].
  apply (effect_bind P 0 0); [done|]. intros y.
  apply (effect_bind P 0 0); [done|]. intros ys. apply effect_ret.
Qed.

Lemma effect_foldM {A S} (P : api_call → Prop) (f : S → A → M S) (xs : list A) (s : S) :
  (∀ s x, effect P 0 (f s x)) → effect P 0 (foldM f s xs).
Proof.
  intros Hf. revert s. induction xs as [|x xs IH]; intros s; simpl; [apply effect_ret|].
  apply (effect_bind P 0 0); [done|]. intros s'. apply IH.
Qed.

Lemma effect_forM {A} (P : api_call → Prop) (n : nat) (f : A → M unit) (xs : list A) :
  (∀ x, effect P n (f x)) → effect P (length xs * n) (forM_ f xs).
Proof.
  intros Hf. induction xs as [|x xs IH]; simpl; [apply effect_ret|].
  apply (effect_bind P n (length xs * n)); [done|]. by intros _.
Qed.

Lemma effect_read (P : api_call → Prop) (l : loc) : effect P 0 (read_instance l).
Proof.
  intros w r w'. unfold read_instance.
  destruct (heap w !! l); apply effect_pure.
Qed.

Lemma effect_alloc (P : api_call → Prop) (i : Instance) : effect P 0 (alloc i).
Proof.
  intros w r w' [= <- <-]. split.
  - intros l i' Hl. exists i'. simpl. rewrite lookup_app_l; [done|].
    by eapply lookup_lt_Some.
  - exists []. rewrite app_nil_r. done.
Qed.

Lemma effect_call_api (P : api_call → Prop) (c : api_call) :
  P c → effect P 1 (call_api c).
Proof.
  intros HP w r w' E. apply call_api_frame in E as (Hh & Ht & _).
  split; [by apply keeps_identity_heap|].
  exists [c]. split; [done|]. split; [simpl; lia|]. split; [by constructor | done].
Qed.

Lemma effect_update (P : api_call → Prop) (l : loc) (g : Instance → Instance) :
  (∀ i, start_values (g i) = start_values i ∧
        ∀ k, k ∈ primary_keys m → attrs (g i) !! k = attrs i !! k) →
  effect P 0 (i ← read_instance l; write_instance l (g i)).
Proof.
  intros Hg w r w'. unfold mbind, M_bind, bind, read_instance, write_instance.
  destruct (heap w !! l) as [i|] eqn:Hl; [|apply effect_pure].
  intros [= <- <-]. split.
  - intros l' i' Hl'. simpl. destruct (decide (l = l')) as [<-|Hne].
    + exists (g i). rewrite list_lookup_insert_eq by by eapply lookup_lt_Some.
      assert (i' = i) as -> by congruence. destruct (Hg i). done.
    + exists i'. by rewrite list_lookup_insert_ne.
  - exists []. rewrite app_nil_r. done.
Qed.

(** ** Effects of the methods *)

Lemma effect_getattr (P : api_call → Prop) (l : loc) (name : string) :
  effect P 0 (getattr l name).
Proof.
  unfold getattr, mbind, M_bind. apply (effect_bind P 0 0); [apply effect_read|].
  intros i. destruct (attrs i !! name); [apply effect_ret | apply effect_raise].
Qed.

Lemma effect_get_persisted (P : api_call → Prop) (l : loc) :
  effect P 0 (get_persisted l).
Proof.
  unfold get_persisted, mbind, M_bind. apply (effect_bind P 0 0); [apply effect_read|].
  intros i. apply effect_ret.
Qed.

Lemma effect_set_persisted (P : api_call → Prop) (l : loc) (p : bool) :
  effect P 0 (set_persisted l p).
Proof. apply effect_update. done. Qed.

Lemma effect_store (P : api_call → Prop) (l : loc) (name : string) (v : value) :
  name ∉ primary_keys m → effect P 0 (store_attr l name v).
Proof.
  intros Hpk.
  assert (effect P 0 (i ← read_instance l; write_instance l (set_attr name v i))) as Hw.
  { apply effect_update. intros i. split; [done|].
    intros k Hk. simpl. apply lookup_insert_ne. congruence. }
  assert (∀ e : exc, effect P 0 (i ← read_instance l; raise e : M unit)) as Hr.
  { intros e. unfold mbind, M_bind. apply (effect_bind P 0 0); [apply effect_read|].
    intros i. apply effect_raise. }
  unfold store_attr.
  destruct (contains (columns m) name); [exact Hw|].
  destruct (contains read_only_names name); [apply Hr|].
  destruct (contains typed_names name); [apply Hr|].
  destruct (String.eqb name "_persisted");
    [exact (effect_update P l (set_flag (truthy v)) (fun i => conj eq_refl (fun k _ => eq_refl)))|].
  destruct (String.eqb name "start_values"); [apply Hr | exact Hw].
Qed.

Lemma effect_setattr (P : api_call → Prop) (l : loc) (name : string) (v : value) :
  effect P 0 (__setattr__ l name v).
Proof.
  unfold __setattr__. unfold mbind at 1, M_bind at 1.
  destruct (contains (relations m) name).
  { intros w r w' [= <- <-].
    exact (@effect_pure unit P (inl (AttributeError name)) w _ w eq_refl). }
  destruct (contains (columns m) name) eqn:Hcol.
  - destruct (contains (primary_keys m) name) eqn:Hpk.
    { intros w r w' [= <- <-].
    exact (@effect_pure unit P (inl (AttributeError name)) w _ w eq_refl). }
    apply (effect_bind P 0 0); [apply effect_lift|]. intros _.
    apply effect_store. by apply contains_false.
  - apply (effect_bind P 0 0); [apply effect_ret|]. intros _.
    apply effect_store.
    intros Hpk. apply primary_keys_columns, contains_elem_of in Hpk. congruence.
Qed.

Lemma effect_init (P : api_call → Prop) (values : pydict) (p : bool) :
  effect P 0 (__init__ values p).
Proof.
  unfold __init__, mbind, M_bind. apply (effect_bind P 0 0).
  - destruct p; [apply effect_ret | apply effect_lift].
  - intros _. apply effect_alloc.
Qed.

Lemma effect_values (P : api_call → Prop) (l : loc) : effect P 0 (values_ l).
Proof.
  unfold values_, mbind, M_bind. apply effect_mapM. intros key.
  apply (effect_bind P 0 0); [apply effect_getattr | intros v; apply effect_ret].
Qed.

Lemma effect_changes (P : api_call → Prop) (l : loc) : effect P 0 (changes l).
Proof.
  unfold changes, mbind, M_bind. apply (effect_bind P 0 0); [apply effect_values|].
  intros values. apply (effect_bind P 0 0); [apply effect_read|].
  intros i. apply effect_ret.
Qed.

Lemma effect_id (P : api_call → Prop) (l : loc) : effect P 0 (id_ l).
Proof.
  unfold id_, mbind, M_bind. apply effect_mapM. intros key.
  apply (effect_bind P 0 0); [apply effect_values|]. intros values.
  destruct (dict_get values key); [apply effect_ret | apply effect_raise].
Qed.

Lemma effect_execute_write (Q : api_method → Prop) (method : api_method)
    (txn : option transaction) (ds : list pydict) :
  Q method → effect (is_write txn Q) 1 (_execute_write method txn ds).
Proof.
  intros HQ. unfold _execute_write, mbind, M_bind.
  apply (effect_bind _ 0 1); [apply effect_lift|]. intros [cols values].
  destruct txn; (apply (effect_bind _ 1 0); [apply effect_call_api; done|]);
    intros _; apply effect_ret.
Qed.

Lemma effect_results_to_models (P : api_call → Prop) (results : list (list value)) :
  effect P 0 (_results_to_models results).
Proof. apply effect_mapM. intros item. apply effect_init. Qed.

Lemma effect_find_multi (txn : option transaction) (keys : list pydict) :
  effect (is_find txn) 1 (find_multi txn keys).
Proof.
  unfold find_multi, mbind, M_bind.
  apply (effect_bind _ 0 1); [apply effect_lift|]. intros kvs.
  apply (effect_bind _ 1 0); [|intros results; apply effect_results_to_models].
  rewrite execute_read_unfold. by apply effect_call_api.
Qed.

Lemma effect_all (txn : option transaction) : effect (is_find txn) 1 (all txn).
Proof.
  unfold all, mbind, M_bind.
  apply (effect_bind _ 1 0); [|intros results; apply effect_results_to_models].
  rewrite execute_read_unfold. by apply effect_call_api.
Qed.

Lemma effect_find (txn : option transaction) (keys : pydict) :
  effect (is_find txn) 1 (find txn keys).
Proof.
  unfold find, mbind, M_bind.
  apply (effect_bind _ 1 0); [apply effect_find_multi | intros ?; apply effect_ret].
Qed.

Lemma effect_call_method {A} (P : api_call → Prop) (n : nat) (l : loc)
    (name : string) (body : M A) :
  effect P n body → effect P n (call_method l name body).
Proof.
  intros Hb. unfold call_method, mbind, M_bind.
  apply (effect_bind P 0 n); [apply effect_read|]. intros i.
  destruct (attrs i !! name); [|done].
  eapply effect_weaken; [| |apply effect_raise]; [done | lia].
Qed.

Lemma effect_call_kwargs {A} (P : api_call → Prop) (n : nat) (f : pydict → M A)
    (kwargs : pydict) :
  effect P n (f kwargs) → effect P n (call_kwargs f kwargs).
Proof.
  intros Hf. unfold call_kwargs, mbind, M_bind.
  apply (effect_bind P 0 n); [apply effect_lift | by intros _].
Qed.

Lemma effect_reload (txn : option transaction) (l : loc) :
  effect (is_find txn) 1 (reload txn l).
Proof.
  unfold reload, mbind, M_bind.
  apply (effect_bind _ 0 1); [apply effect_call_method, effect_id|]. intros ident.
  apply (effect_bind _ 1 0); [apply effect_call_kwargs, effect_find|].
  intros [u|]; [|apply effect_ret].
  apply (effect_bind _ 0 0).
  { apply (effect_weaken (is_find txn) (is_find txn) (length (columns m) * 0) 0);
      [done | lia |].
    apply effect_forM. intros column.
    destruct (contains (primary_keys m) column); [apply effect_ret|].
    apply (effect_bind _ 0 0); [apply effect_getattr|]. intros v.
    apply effect_setattr. }
  intros _. apply (effect_bind _ 0 0); [apply effect_set_persisted|].
  intros _. apply effect_ret.
Qed.

Lemma effect_save (txn : option transaction) (l : loc) :
  effect (is_write txn (fun k => k ≠ upsert)) 1 (save txn l).
Proof.
  unfold save, create, update_, mbind, M_bind.
  apply (effect_bind _ 0 1); [apply effect_get_persisted|]. intros p.
  apply (effect_bind _ 1 0); [|intros _; apply effect_ret].
  destruct p.
  - apply (effect_bind _ 0 1); [apply effect_call_method, effect_changes|].
    intros [|kv kvs]; [eapply effect_weaken; [| |apply effect_ret]; [done|lia]|].
    apply (effect_bind _ 0 1); [apply effect_call_method, effect_id|]. intros ident.
    by apply effect_call_kwargs, effect_execute_write.
  - apply (effect_bind _ 0 1); [apply effect_values|]. intros values.
    apply (effect_bind _ 1 0); [by apply effect_call_kwargs, effect_execute_write|].
    intros _. apply effect_set_persisted.
Qed.

Lemma effect_delete (txn : option transaction) (l : loc) :
  effect (is_delete txn) 1 (delete_ txn l).
Proof.
  unfold delete_, mbind, M_bind.
  apply (effect_bind _ 0 1).
  { apply effect_mapM. intros k. apply effect_getattr. }
  intros key. apply effect_call_method.
  destruct txn; (apply (effect_bind _ 1 0); [by apply effect_call_api|]);
    intros _; apply effect_ret.
Qed.

Lemma effect_delete_batch (txn : option transaction) (models : list loc) :
  effect (is_delete txn) 1 (delete_batch txn models).
Proof.
  unfold delete_batch, mbind, M_bind.
  apply (effect_bind _ 0 1).
  { apply effect_mapM. intros model. apply effect_mapM. intros k. apply effect_getattr. }
  intros key. destruct txn; (apply (effect_bind _ 1 0); [by apply effect_call_api|]);
    intros _; apply effect_ret.
Qed.

Lemma effect_run {A} (P : api_call → Prop) (n : nat) (c : M A) (w : World) :
  effect P n c →
  keeps_identity w (snd (c w)) ∧
  ∃ cs, trace (snd (c w)) = trace w ++ cs ∧ (length cs ≤ n)%nat ∧ Forall P cs ∧
        (cs = [] → db (snd (c w)) = db w).
Proof. intros H. apply (H w (fst (c w))). apply surjective_pairing. Qed.

Lemma effect_local {A} (P : api_call → Prop) (c : M A) (w : World) :
  effect P 0 c → db (snd (c w)) = db w ∧ trace (snd (c w)) = trace w.
Proof.
  intros H. destruct (effect_run P 0 c w H) as (_ & cs & Ht & Hlen & _ & Hdb).
  destruct cs; [|simpl in Hlen; lia].
  split; [by apply Hdb | by rewrite Ht, app_nil_r].
Qed.

Lemma save_batch_step_inv (force_write : bool) (work work' : list (api_method * list pydict))
    (l : loc) (w w' : World) :
  save_batch_step force_write work l w = (inr work', w') →
  ∃ k v, work' = work_append work k v ∧ batch_kind force_write k.
Proof.
  unfold save_batch_step. change (mapM _ (columns m)) with (values_ l). munfold.
  destruct (values_ l w) as [[e|value] w1]; [done|].
  destruct force_write.
  - destruct (set_persisted l true w1) as [[e|[]] w2]; [done|].
    intros [= <- <-]. by exists upsert, value.
  - destruct (get_persisted l w1) as [[e|p] w2]; [done|].
    destruct (set_persisted l true w2) as [[e|[]] w3]; [done|].
    intros [= <- <-]. exists (if p then update else insert), value.
    split; [done|]. by destruct p.
Qed.

Lemma effect_save_batch_step (P : api_call → Prop) (force_write : bool)
    (work : list (api_method * list pydict)) (l : loc) :
  effect P 0 (save_batch_step force_write work l).
Proof.
  unfold save_batch_step, mbind, M_bind.
  apply (effect_bind P 0 0).
  { apply effect_mapM. intros column.
    apply (effect_bind P 0 0); [apply effect_getattr | intros v; apply effect_ret]. }
  intros value. apply (effect_bind P 0 0).
  { destruct force_write; [apply effect_ret|].
    apply (effect_bind P 0 0); [apply effect_get_persisted | intros p; apply effect_ret]. }
  intros method. apply (effect_bind P 0 0); [apply effect_set_persisted|].
  intros _. apply effect_ret.
Qed.

Lemma partition_work (force_write : bool) (models : list loc)
    (work work' : list (api_method * list pydict)) (w w' : World) :
  foldM (save_batch_step force_write) work models w = (inr work', w') →
  work_ok work → (∀ g, g ∈ work → batch_kind force_write (fst g)) →
  work_ok work' ∧ ∀ g, g ∈ work' → batch_kind force_write (fst g).
Proof.
  revert work w. induction models as [|l models IH]; intros work w; simpl.
  - munfold. intros [= <- <-]. done.
  - munfold. destruct (save_batch_step force_write work l w) as [[e|work1] w1] eqn:E;
      [done|].
    intros Hrest Hok Hkinds.
    apply save_batch_step_inv in E as (k & v & -> & Hk).
    apply (IH _ _ Hrest); [by apply work_append_ok|].
    intros g Hg.
    assert (fst g ∈ map fst (work_append work k v)) as Hin
      by (apply list_elem_of_fmap; by exists g).
    apply work_append_keys in Hin as [->|Hin]; [done|].
    apply list_elem_of_fmap in Hin as (g' & -> & Hg'). by apply Hkinds.
Qed.

Lemma distinct_kinds_length (force_write : bool) (ks : list api_method) :
  NoDup ks → (∀ k, k ∈ ks → batch_kind force_write k) →
  (length ks ≤ if force_write then 1 else 2)%nat.
Proof.
  intros Hnd Hk. destruct force_write.
  - assert (ks ⊆+ [upsert]) as Hsub.
    { apply NoDup_submseteq; [done|]. intros k Hin. rewrite (Hk k Hin). set_solver. }
    by apply submseteq_length in Hsub.
  - assert (ks ⊆+ [insert; update]) as Hsub.
    { apply NoDup_submseteq; [done|]. intros k Hin. specialize (Hk k Hin).
      unfold batch_kind in Hk. destruct k; set_solver. }
    by apply submseteq_length in Hsub.
Qed.

Lemma effect_save_batch (txn : option transaction) (models : list loc)
    (force_write : bool) :
  effect (is_write txn (batch_kind force_write)) (if force_write then 1 else 2)
    (save_batch txn models force_write).
Proof.
  intros w r w'. unfold save_batch. unfold mbind, M_bind, bind.
  destruct (foldM (save_batch_step force_write) [] models w) as [[e|work] w1] eqn:E.
  - intros [= <- <-].
    eapply (effect_weaken (is_write txn (batch_kind force_write)) _ 0
              (if force_write then 1 else 2));
      [done | destruct force_write; lia | | exact E].
    apply effect_foldM. intros s x. apply effect_save_batch_step.
  - intros Hwrites.
    destruct (partition_work force_write models [] work w w1 E) as [[Hnd _] Hkinds].
    { split; [constructor | intros g Hg; by apply elem_of_nil in Hg]. }
    { intros g Hg. by apply elem_of_nil in Hg. }
    assert (effect (is_write txn (batch_kind force_write)) 0
              (foldM (save_batch_step force_write) [] models)) as H1.
    { apply effect_foldM. intros s x. apply effect_save_batch_step. }
    destruct (H1 w _ _ E) as (Hid & cs & Ht & Hlen & Hall & Hdb).
    assert (∀ ws : list (api_method * list pydict),
              (∀ g, g ∈ ws → batch_kind force_write (fst g)) →
              effect (is_write txn (batch_kind force_write)) (length ws)
                (forM_ (fun kv : api_method * list pydict =>
                          _execute_write (fst kv) txn (snd kv)) ws)) as H2.
    { induction ws as [|g ws IH]; intros Hk; simpl; [apply effect_ret|].
      apply (effect_bind _ 1 (length ws)).
      - apply effect_execute_write. apply Hk. by left.
      - intros _. apply IH. intros g' Hg'. apply Hk. by right. }
    destruct (H2 work Hkinds w1 _ _ Hwrites) as (Hid' & cs' & Ht' & Hlen' & Hall' & Hdb').
    split; [by eapply keeps_identity_trans|].
    exists (cs ++ cs'). split; [by rewrite Ht', Ht, <- app_assoc|].
    apply (distinct_kinds_length force_write) in Hnd.
    2: { intros k (g & -> & Hg)%list_elem_of_fmap. by apply Hkinds. }
    rewrite length_map in Hnd.
    split; [rewrite length_app; lia|]. split; [by apply Forall_app|].
    intros [-> ->]%app_eq_nil. rewrite Hdb', Hdb; done.
Qed.

Lemma effect_issues {A} (P : api_call → Prop) (n : nat) (c : M A) (w : World) :
  effect P n c → issues P n w (snd (c w)).
Proof. intros H. by destruct (effect_run P n c w H). Qed.

Lemma effect_identity {A} (P : api_call → Prop) (n : nat) (c : M A) (w : World) :
  effect P n c → keeps_identity w (snd (c w)).
Proof. intros H. by destruct (effect_run P n c w H). Qed.

(** ** What no method ever does *)


(** X2. Construction, attribute assignment and the accessors [values],
    [changes()] and [id()] are local: whatever their outcome they issue no
    API call and leave the database as it was. *)
Theorem local_methods_skip_api (l : loc) (w : World) :
  (∀ values p, db (snd (__init__ values p w)) = db w ∧
               trace (snd (__init__ values p w)) = trace w) ∧
  (∀ name v, db (snd (__setattr__ l name v w)) = db w ∧
             trace (snd (__setattr__ l name v w)) = trace w) ∧
  (db (snd (values_ l w)) = db w ∧ trace (snd (values_ l w)) = trace w) ∧
  (db (snd (changes l w)) = db w ∧ trace (snd (changes l w)) = trace w) ∧
  (db (snd (id_ l w)) = db w ∧ trace (snd (id_ l w)) = trace w).
Proof.
  split; [intros values p; apply (effect_local (fun _ => True)), effect_init|].
  split; [intros name v; apply (effect_local (fun _ => True)), effect_setattr|].
  split; [apply (effect_local (fun _ => True)), effect_values|].
  split; [apply (effect_local (fun _ => True)), effect_changes|].
  apply (effect_local (fun _ => True)), effect_id.
Qed.

(** X3. Every read method issues at most one API call, whatever its
    outcome, and that call is a [find] of all columns of the model's table,
    made in the caller's transaction when one is given and through
    [run_read_only] otherwise. In particular [reload], [find], [find_multi]
    and [all] never write. *)
Theorem reads_issue_one_find (txn : option transaction) (w : World) :
  issues (is_find txn) 1 w (snd (all txn w)) ∧
  (∀ keys, issues (is_find txn) 1 w (snd (find_multi txn keys w))) ∧
  (∀ keys, issues (is_find txn) 1 w (snd (find txn keys w))) ∧
  (∀ l, issues (is_find txn) 1 w (snd (reload txn l w))).
Proof.
  split; [apply effect_issues, effect_all|].
  split; [intros keys; apply effect_issues, effect_find_multi|].
  split; [intros keys; apply effect_issues, effect_find|].
  intros l. apply effect_issues, effect_reload.
Qed.

(** X4. Every single-row write method issues at most one API call, whatever
    its outcome, on the model's table, in the caller's transaction when one
    is given and through [run_write] otherwise: [create] only inserts,
    [update] only updates, [create_or_update] only upserts, and [save] never
    upserts. *)
Theorem writes_issue_one_write (txn : option transaction) (w : World) :
  (∀ kwargs, issues (is_write txn (fun k => k = insert)) 1 w (snd (create txn kwargs w))) ∧
  (∀ kwargs, issues (is_write txn (fun k => k = update)) 1 w (snd (update_ txn kwargs w))) ∧
  (∀ kwargs, issues (is_write txn (fun k => k = upsert)) 1 w
               (snd (create_or_update txn kwargs w))) ∧
  (∀ l, issues (is_write txn (fun k => k ≠ upsert)) 1 w (snd (save txn l w))).
Proof.
  split; [intros kwargs; by apply effect_issues, effect_execute_write|].
  split; [intros kwargs; by apply effect_issues, effect_execute_write|].
  split; [intros kwargs; by apply effect_issues, effect_execute_write|].
  intros l. apply effect_issues, effect_save.
Qed.

(** X5. [save_batch] issues at most two API calls however many objects the
    batch holds, and at most one with [force_write]; all of them are writes
    on the model's table in the write mode of the call, every one an upsert
    with [force_write] and none without it. An empty batch issues nothing
    and returns. *)
Theorem save_batch_issues_few_writes (txn : option transaction) (models : list loc)
    (force_write : bool) (w : World) :
  issues (is_write txn (batch_kind force_write)) (if force_write then 1 else 2) w
    (snd (save_batch txn models force_write w)) ∧
  save_batch txn [] force_write w = (inr tt, w).
Proof. split; [apply effect_issues, effect_save_batch | reflexivity]. Qed.

(** ** Dictionaries and reported changes *)

Lemma dict_get_setitem (d : pydict) (k k' : string) (v : value) :
  dict_get (dict_setitem d k v) k' = if String.eqb k k' then Some v else dict_get d k'.
Proof.
  induction d as [|[k0 v0] d IH]; simpl.
  - by destruct (String.eqb k k').
  - destruct (String.eqb_spec k0 k) as [->|Hne]; simpl.
    + by destruct (String.eqb_spec k k').
    + destruct (String.eqb_spec k0 k') as [->|Hne'].
      * destruct (String.eqb_spec k k'); [congruence | done].
      * apply IH.
Qed.

Lemma dict_update_keys (d other : pydict) (k : string) :
  k ∈ dict_keys (dict_update d other) ↔ k ∈ dict_keys d ∨ k ∈ dict_keys other.
Proof.
  unfold dict_update. revert d. induction other as [|[k0 v0] other IH]; intros d; simpl.
  - split; [by left | intros [?|H]; [done | by apply elem_of_nil in H]].
  - rewrite IH, elem_of_cons, <- !dict_get_is_Some, dict_get_setitem.
    destruct (String.eqb_spec k0 k) as [->|Hne].
    + split; [intros _; right; by left | intros _; left; eauto].
    + split; [intros [?|?]; [by left | right; by right]|].
      intros [?|[?|?]]; [by left | congruence | by right].
Qed.

Lemma dict_update_values (g : string → value) (d other : pydict) :
  (∀ k v, dict_get d k = Some v → v = g k) →
  (∀ k v, (k, v) ∈ other → v = g k) →
  ∀ k v, dict_get (dict_update d other) k = Some v → v = g k.
Proof.
  unfold dict_update. revert d. induction other as [|[k0 v0] other IH]; intros d Hd Ho;
    simpl; [done|].
  apply IH.
  - intros k v. rewrite dict_get_setitem.
    destruct (String.eqb_spec k0 k) as [->|Hne]; [|apply Hd].
    intros [= <-]. apply Ho. by left.
  - intros k v Hin. apply Ho. by right.
Qed.

Lemma dict_get_elem_of (d : pydict) (k : string) (v : value) :
  dict_get d k = Some v → (k, v) ∈ d.
Proof.
  induction d as [|[k0 v0] d IH]; simpl; [done|].
  destruct (String.eqb_spec k0 k) as [->|Hne].
  - intros [= ->]. by left.
  - intros H. right. by apply IH.
Qed.

Lemma changes_of_elem (i : Instance) (c : string) (v : value) :
  (c, v) ∈ changes_of i ↔
  c ∈ columns m ∧ v = attr i c ∧
  py_eqb (attr i c) (default VNone (start_values i !! c)) = false.
Proof.
  unfold changes_of, values_of. split.
  - intros Hin. apply list_elem_of_In, filter_In in Hin as [Hin Hne].
    apply list_elem_of_In, list_elem_of_fmap in Hin as (c' & [= -> ->] & Hc).
    simpl in Hne. apply negb_true_iff in Hne. done.
  - intros (Hc & -> & Hne). apply list_elem_of_In, filter_In. split.
    + apply list_elem_of_In, list_elem_of_fmap. by exists c.
    + simpl. by apply negb_true_iff.
Qed.

Lemma changes_of_keys (i : Instance) (c : string) :
  c ∈ dict_keys (changes_of i) ↔
  c ∈ columns m ∧ py_eqb (attr i c) (default VNone (start_values i !! c)) = false.
Proof.
  unfold dict_keys. rewrite list_elem_of_fmap. split.
  - intros ([c' v] & -> & Hin). apply changes_of_elem in Hin as (? & _ & ?). done.
  - intros [Hc Hne]. exists (c, attr i c). split; [done|]. by apply changes_of_elem.
Qed.

(** ** Attribute assignment *)

Lemma setattr_column_run (l : loc) (i : Instance) (name : string) (v : value)
    (f : Field) (w : World) :
  heap w !! l = Some i → name ∉ relations m → name ∉ primary_keys m →
  schema_get (fields m) name = Some f →
  __setattr__ l name v w
  = if validate f v
    then (inr tt, with_heap (<[l := set_attr name v i]> (heap w)) w)
    else (inl (Validation AttributeErrorT f v), w).
Proof.
  intros Hl Hrel Hpk Hf. unfold __setattr__, validate_value. munfold.
  rewrite (proj2 (contains_false _ _) Hrel), (proj2 (contains_false _ _) Hpk).
  assert (contains (columns m) name = true) as Hcol.
  { apply contains_elem_of, schema_get_is_Some. eauto. }
  rewrite Hcol, Hf. destruct (validate f v); [|done].
  by rewrite (store_attr_run l i name v w Hl), Hcol.
Qed.


(** ** Construction *)

Lemma init_success (values : pydict) (p : bool) (w w' : World) (l : loc) :
  __init__ values p w = (inr l, w') →
  l = length (heap w) ∧
  w' = with_heap (heap w ++ [init_instance values p]) w ∧
  (p = false → init_checks values = inr tt).
Proof.
  unfold __init__, alloc. munfold. destruct p.
  - intros [= <- <-]. done.
  - destruct (init_checks values) as [e|[]]; [done|]. intros [= <- <-]. done.
Qed.

Lemma validate_items_accepts (items : pydict) (ty : error_type) :
  validate_items items ty = inr tt →
  ∀ k v, (k, v) ∈ items → ∃ f, schema_get (fields m) k = Some f ∧ validate f v = true.
Proof.
  induction items as [|[k0 v0] items IH]; simpl.
  - intros _ k v H. by apply elem_of_nil in H.
  - unfold validate_value.
    destruct (schema_get (fields m) k0) as [f|] eqn:Hf; [|done].
    destruct (validate f v0) eqn:Hv; [|done].
    intros Hrest k v [[= -> ->]|Hin]%elem_of_cons; [by exists f | by apply IH].
Qed.

Lemma fold_relations_lookup (values : pydict) (rels : list string)
    (acc : gmap string value) (r : string) :
  fold_left (fun acc relation =>
               match dict_get values relation with
               | Some v => <[relation := v]> acc
               | None => acc
               end) rels acc !! r
  = if contains rels r
    then match dict_get values r with Some v => Some v | None => acc !! r end
    else acc !! r.
Proof.
  revert acc. induction rels as [|r0 rels IH]; intros acc; simpl; [done|].
  rewrite IH. destruct (String.eqb_spec r r0) as [->|Hne]; simpl.
  - destruct (dict_get values r0) as [v|] eqn:E.
    + rewrite lookup_insert_eq. by destruct (contains rels r0).
    + by destruct (contains rels r0).
  - destruct (dict_get values r0) as [v0|]; [|done].
    rewrite lookup_insert_ne by done. done.
Qed.

Lemma init_relation_lookup (values : pydict) (p : bool) (r : string) :
  r ∈ relations m → r ∉ columns m →
  attrs (init_instance values p) !! r = dict_get values r.
Proof.
  intros Hr Hc. unfold init_instance. simpl.
  rewrite fold_relations_lookup, (proj2 (contains_elem_of _ _) Hr).
  rewrite fold_insert_lookup, (proj2 (contains_false _ _) Hc).
  rewrite lookup_empty. by destruct (dict_get values r).
Qed.

Lemma attr_init_instance (values : pydict) (p : bool) (c : string) :
  c ∈ columns m → attr (init_instance values p) c = get_default values c.
Proof. intros Hc. unfold attr. by rewrite init_instance_attrs. Qed.


(** ** Keyed reads *)

Lemma key_values_ok (keys : list pydict) :
  (∀ key column, key ∈ keys → column ∈ primary_keys m → column ∈ dict_keys key) →
  key_values keys = inr (map (fun key => map (get_default key) (primary_keys m)) keys).
Proof.
  induction keys as [|key keys IH]; intros H; simpl; [done|].
  rewrite subscript_all_ok by (intros c Hc; apply (H key); [by left | done]).
  rewrite IH by (intros k c Hk; apply H; by right). done.
Qed.

(** The read [find_multi] issues for a list of key mappings. *)
Lemma find_multi_run (txn : option transaction) (keys : list pydict) (w : World) :
  (∀ key column, key ∈ keys → column ∈ primary_keys m → column ∈ dict_keys key) →
  find_multi txn keys w
  = match call_api (Find (read_mode txn) (table m) (columns m)
                      (KeySetKeys (map (fun key => map (get_default key) (primary_keys m))
                                     keys))) w with
    | (inl e, w1) => (inl e, w1)
    | (inr rows, w1) =>
        (inr (seq (length (heap w1)) (length rows)),
         with_heap
           (heap w1 ++ map (fun row => init_instance (dict_zip (columns m) row) true) rows)
           w1)
    end.
Proof.
  intros H. unfold find_multi. munfold. rewrite key_values_ok by done.
  rewrite execute_read_unfold.
  destruct (call_api _ w) as [[e|rows] w1]; [done|].
  by rewrite results_to_models_run.
Qed.

Lemma call_api_run (c : api_call) (w : World) :
  call_api c w
  = match run_call api c (db w) with
    | (inl e, d) => (inl (ApiError e), after_call c d w)
    | (inr rows, d) => (inr rows, after_call c d w)
    end.
Proof. unfold call_api. by destruct (run_call api c (db w)) as [[e|rows] d]. Qed.

Lemma dict_update_skip (d other : pydict) (k : string) :
  k ∉ dict_keys other → dict_get (dict_update d other) k = dict_get d k.
Proof.
  unfold dict_update. revert d. induction other as [|[k0 v0] other IH]; intros d Hk;
    simpl; [done|].
  simpl in Hk. apply not_elem_of_cons in Hk as [Hne Hk].
  rewrite IH by done. rewrite dict_get_setitem.
  destruct (String.eqb_spec k0 k); [congruence | done].
Qed.

Lemma dict_update_lookup (d other : pydict) (k : string) (v : value) :
  NoDup (dict_keys other) → (k, v) ∈ other →
  dict_get (dict_update d other) k = Some v.
Proof.
  unfold dict_update. revert d. induction other as [|[k0 v0] other IH]; intros d Hnd Hin.
  - by apply elem_of_nil in Hin.
  - simpl in *. apply NoDup_cons in Hnd as [Hk0 Hnd].
    apply elem_of_cons in Hin as [[= -> ->]|Hin].
    + fold (dict_update (dict_setitem d k0 v0) other).
      rewrite dict_update_skip by done. rewrite dict_get_setitem.
      by rewrite String.eqb_refl.
    + by apply IH.
Qed.

Lemma combine_keys_NoDup (names : list string) (row : list value) :
  NoDup names → NoDup (dict_keys (combine names row)).
Proof.
  intros Hnd. revert row. induction Hnd as [|c names Hc Hnd IH]; intros row; simpl;
    [constructor|].
  destruct row as [|v row]; simpl; [constructor|].
  constructor; [|apply IH].
  intros (kv & Hk & Hin)%list_elem_of_fmap. apply Hc.
  destruct kv as [k v']. simpl in Hk. subst k.
  apply list_elem_of_In in Hin. apply in_combine_l in Hin. by apply list_elem_of_In.
Qed.


Lemma dict_keys_id_of (i : Instance) : dict_keys (id_of i) = primary_keys m.
Proof. unfold dict_keys, id_of. rewrite map_map. simpl. by rewrite map_id. Qed.

Lemma bind_kwargs_safe (kwargs : pydict) :
  keyword_safe (dict_keys kwargs) → bind_kwargs kwargs = inr tt.
Proof. intros [? ?]. by apply bind_kwargs_ok. Qed.

Lemma keyword_safe_subset (names names' : list string) :
  (∀ k, k ∈ names' → k ∈ names) → keyword_safe names → keyword_safe names'.
Proof. intros Hsub [Hc Ht]. split; intros H; [apply Hc | apply Ht]; by apply Hsub. Qed.


(** ** Deletion *)

Lemma key_run (l : loc) (i : Instance) (w : World) :
  heap w !! l = Some i → has_columns i →
  mapM (getattr l) (primary_keys m) w = (inr (map (attr i) (primary_keys m)), w).
Proof.
  intros Hl Hc.
  assert (∀ ks : list string, (∀ k, k ∈ ks → k ∈ columns m) →
            mapM (getattr l) ks w = (inr (map (attr i) ks), w)) as H.
  { induction ks as [|k ks IH]; intros Hsub; [done|].
    rewrite mapM_cons, (getattr_run l i k w Hl) by (apply Hc, Hsub; by left).
    rewrite IH by (intros; apply Hsub; by right). done. }
  apply H, primary_keys_columns.
Qed.

Lemma keys_run (models : list loc) (w : World) :
  (∀ l, l ∈ models → ∃ i, heap w !! l = Some i ∧ has_columns i) →
  mapM (fun model => mapM (getattr model) (primary_keys m)) models w
  = (inr (map (key_at (heap w)) models), w).
Proof.
  induction models as [|l models IH]; intros H; [done|].
  destruct (H l) as (i & Hl & Hc); [by left|].
  rewrite mapM_cons, (key_run l i w Hl Hc), IH by (intros; apply H; by right).
  simpl. do 2 f_equal. unfold key_at. by rewrite Hl.
Qed.



(** ** The update payload of [save] *)


(** ** Which errors a method can raise *)

Lemma keys_eqb_refl (a : list string) : keys_eqb a a = true.
Proof. by apply keys_eqb_spec. Qed.

Lemma execute_write_errors (method : api_method) (txn : option transaction)
    (ds : list pydict) (w : World) (e : exc) :
  fst (_execute_write method txn ds w) = inl e →
  (∃ keys, e = InvalidKeys (model_name m) keys ∧ keys ≠ []) ∨
  (e = MismatchedKeys ∧ (2 ≤ length ds)%nat) ∨
  (∃ f v, e = Validation SpannerError f v) ∨
  (∃ a, e = ApiError a).
Proof.
  destruct (first_failure (row_passes (shared_columns ds)) ds
              (row_passes_cases (shared_columns ds)))
    as [Hall|(pre & d & post & Hds & Hpre & Hd)].
  - rewrite (execute_write_all_pass method txn ds w Hall). munfold.
    rewrite call_api_run.
    destruct (run_call api _ (db w)) as [[a|rows] d']; simpl; [|done].
    intros [= <-]. right; right; right. by exists a.
  - destruct (execute_write_first_failure method txn ds pre post d w Hds Hpre Hd)
      as (e' & E & Hinv & Hmis & Hval).
    rewrite E. simpl. intros [= <-].
    destruct (undeclared d) as [|k ks] eqn:Hun.
    + destruct (keys_eqb (shared_columns ds) (dict_keys d)) eqn:Heq.
      * destruct Hval as (k & v & f & _ & _ & _ & ->); [done..|].
        right; right; left. by exists f, v.
      * right; left. split; [by apply Hmis|].
        destruct pre as [|d0 pre]; [|rewrite Hds; simpl; rewrite length_app; simpl; lia].
        rewrite Hds in Heq. simpl in Heq. by rewrite keys_eqb_refl in Heq.
    + left. exists (k :: ks). split; [by apply Hinv | done].
Qed.


(** ** Values are validated before they are written *)

(** X14. Nothing reaches the API through the write primitive unchecked: if
    [_execute_write] issued a call, then every dictionary it was given has
    exactly the keys of the first one, every key is a declared column, and
    every value was accepted by the field of its column. *)
Theorem writes_are_validated (method : api_method) (txn : option transaction)
    (ds : list pydict) (w : World) :
  trace (snd (_execute_write method txn ds w)) ≠ trace w →
  ∀ d, d ∈ ds →
    (∀ k, k ∈ dict_keys d ↔ k ∈ shared_columns ds) ∧
    ∀ k v, (k, v) ∈ d →
           k ∈ columns m ∧ ∃ f, schema_get (fields m) k = Some f ∧ validate f v = true.
Proof.
  intros Htrace.
  destruct (first_failure (row_passes (shared_columns ds)) ds
              (row_passes_cases (shared_columns ds)))
    as [Hall|(pre & d & post & Hds & Hpre & Hd)].
  - intros d Hd. rewrite Forall_forall in Hall.
    destruct (Hall d Hd) as (Hun & Heq & Hval).
    split.
    + intros k. symmetry. by apply keys_eqb_spec.
    + intros k v Hin. split; [|by eapply validate_items_accepts].
      destruct (decide (k ∈ columns m)) as [|Hn]; [done|].
      assert (k ∈ undeclared d) as Hbad.
      { apply keys_difference_spec. split; [|done].
        apply list_elem_of_fmap. by exists (k, v). }
      rewrite Hun in Hbad. by apply elem_of_nil in Hbad.
  - destruct (execute_write_first_failure method txn ds pre post d w Hds Hpre Hd)
      as (e & E & _).
    rewrite E in Htrace. done.
Qed.

(** ** Instances whose values are valid *)

Lemma keys_difference_nil (a b : list string) :
  (∀ k, k ∈ a → k ∈ b) → keys_difference a b = [].
Proof.
  intros H. destruct (keys_difference a b) as [|k ks] eqn:E; [done|].
  assert (k ∈ keys_difference a b) as Hin by (rewrite E; by left).
  apply keys_difference_spec in Hin as [Hin Hn]. destruct Hn. by apply H.
Qed.

Lemma validate_items_all (items : pydict) (ty : error_type) :
  (∀ k v, (k, v) ∈ items →
          ∃ f, schema_get (fields m) k = Some f ∧ validate f v = true) →
  validate_items items ty = inr tt.
Proof.
  induction items as [|[k v] items IH]; intros H; simpl; [done|].
  destruct (H k v) as (f & Hf & Hv); [by left|].
  unfold validate_value. rewrite Hf, Hv. apply IH. intros k' v' Hin. apply H. by right.
Qed.

Lemma dict_setitem_elem (d : pydict) (k k0 : string) (v v0 : value) :
  (k, v) ∈ dict_setitem d k0 v0 → (k, v) ∈ d ∨ (k, v) = (k0, v0).
Proof.
  induction d as [|[k1 v1] d IH]; simpl.
  - intros ->%list_elem_of_singleton. by right.
  - destruct (String.eqb_spec k1 k0) as [->|Hne].
    + intros [[= -> ->]|Hin]%elem_of_cons; [by right | left; by right].
    + intros [[= -> ->]|Hin]%elem_of_cons; [left; by left|].
      destruct (IH Hin) as [?|?]; [left; by right | by right].
Qed.

Lemma dict_update_elem (d other : pydict) (k : string) (v : value) :
  (k, v) ∈ dict_update d other → (k, v) ∈ d ∨ (k, v) ∈ other.
Proof.
  unfold dict_update. revert d. induction other as [|[k0 v0] other IH]; intros d; simpl;
    [by left|].
  intros Hin. destruct (IH _ Hin) as [Hd|Ho]; [|right; by right].
  apply dict_setitem_elem in Hd as [?|[= -> ->]]; [by left | right; by left].
Qed.

(** A single dictionary whose entries are current values of declared columns
    of a valid instance passes the checks of the write loop. *)
Lemma valid_row_passes (i : Instance) (d : pydict) :
  valid_values i →
  (∀ k v, (k, v) ∈ d → k ∈ columns m ∧ v = attr i k) →
  Forall (row_passes (shared_columns [d])) [d].
Proof.
  intros Hvalid Hd. constructor; [|constructor]. split; [|split].
  - apply keys_difference_nil. intros k (kv & -> & Hin)%list_elem_of_fmap.
    destruct kv as [k v]. by destruct (Hd k v Hin).
  - apply keys_eqb_refl.
  - apply validate_items_all. intros k v Hin. destruct (Hd k v Hin) as [Hc ->].
    destruct (schema_get_is_Some (fields m) k) as [_ [f Hf]]; [done|].
    exists f. split; [done|]. by apply Hvalid.
Qed.



(** ** Batched writes carry every object once *)

Lemma work_append_rows (work : list (api_method * list pydict)) (k : api_method)
    (v : pydict) :
  concat (map snd (work_append work k v)) ≡ₚ concat (map snd work) ++ [v].
Proof.
  induction work as [|[k' vs] work IH]; simpl; [done|].
  destruct (decide (k' = k)) as [->|Hne]; simpl.
  - rewrite <- !app_assoc. f_equiv. apply Permutation_app_comm.
  - rewrite IH. by rewrite app_assoc.
Qed.

Lemma build_work_rows (rs : list (api_method * pydict))
    (work : list (api_method * list pydict)) :
  concat (map snd (build_work rs work)) ≡ₚ concat (map snd work) ++ map snd rs.
Proof.
  revert work. induction rs as [|[k v] rs IH]; intros work; simpl.
  - by rewrite app_nil_r.
  - unfold build_work in IH. rewrite IH, work_append_rows. simpl.
    by rewrite <- app_assoc.
Qed.


(** ** The column prefix *)

Lemma split_on_nonempty (sep : ascii) (s : string) : split_on sep s ≠ [].
Proof.
  destruct s as [|c rest]; simpl; [done|].
  destruct (Ascii.eqb c sep); [done|]. by destruct (split_on sep rest).
Qed.

Lemma split_on_join (sep : ascii) (s : string) :
  String.concat (String sep EmptyString) (split_on sep s) = s.
Proof.
  induction s as [|c rest IH]; simpl; [done|].
  destruct (Ascii.eqb_spec c sep) as [->|Hne].
  - pose proof (split_on_nonempty sep rest) as Hn.
    destruct (split_on sep rest) as [|p ps] eqn:E; [done|].
    simpl in *. by rewrite IH.
  - pose proof (split_on_nonempty sep rest) as Hn.
    destruct (split_on sep rest) as [|p ps] eqn:E; [done|].
    simpl in *. destruct ps; simpl in *; by rewrite <- IH.
Qed.

Lemma split_on_pieces (sep : ascii) (s : string) :
  Forall (fun piece => has_char sep piece = false) (split_on sep s).
Proof.
  induction s as [|c rest IH]; simpl; [by repeat constructor|].
  destruct (Ascii.eqb_spec c sep) as [->|Hne].
  - by constructor.
  - destruct (split_on sep rest) as [|p ps]; simpl.
    + repeat constructor. simpl. by rewrite (proj2 (Ascii.eqb_neq _ _) Hne).
    + apply Forall_cons in IH as [Hp Hps]. constructor; [|done].
      simpl. by rewrite (proj2 (Ascii.eqb_neq _ _) Hne).
Qed.

Lemma split_on_plain (sep : ascii) (s : string) :
  has_char sep s = false → split_on sep s = [s].
Proof.
  induction s as [|c rest IH]; simpl; [done|].
  intros [Hc Hrest]%orb_false_iff. rewrite Hc, IH by done. done.
Qed.

Lemma append_assoc (a b c : string) :
  String.append (String.append a b) c = String.append a (String.append b c).
Proof.
  induction a as [|x a IH]; [done|].
  change (String x (String.append (String.append a b) c)
          = String x (String.append a (String.append b c))).
  by rewrite IH.
Qed.

Lemma concat_snoc (sep : string) (ps : list string) (p : string) :
  String.concat sep (ps ++ [p])
  = match ps with
    | [] => p
    | _ :: _ => String.append (String.concat sep ps) (String.append sep p)
    end.
Proof.
  induction ps as [|q ps IH]; [done|].
  destruct ps as [|q' ps]; [done|].
  change (String.concat sep ((q :: q' :: ps) ++ [p]))
    with (String.append q (String.append sep (String.concat sep ((q' :: ps) ++ [p])))).
  rewrite IH.
  change (String.concat sep (q :: q' :: ps))
    with (String.append q (String.append sep (String.concat sep (q' :: ps)))).
  by rewrite !append_assoc.
Qed.

(** X18. [column_prefix] is the part of the table name after its last dot:
    it contains no dot, the table name is either the prefix itself or some
    text, a dot and the prefix, and a table name without a dot is its own
    prefix. Splitting at dots loses nothing: joining the pieces with dots
    gives the table name back, and no piece contains a dot. *)
Theorem column_prefix_is_last_piece :
  has_char "."%char column_prefix = false ∧
  (table m = column_prefix ∨
   ∃ before, table m = String.append before (String.append "." column_prefix)) ∧
  (has_char "."%char (table m) = false → column_prefix = table m) ∧
  String.concat "." (split_on "."%char (table m)) = table m ∧
  Forall (fun piece => has_char "."%char piece = false) (split_on "."%char (table m)).
Proof.
  unfold column_prefix.
  pose proof (split_on_nonempty "."%char (table m)) as Hne.
  pose proof (split_on_pieces "."%char (table m)) as Hpieces.
  pose proof (split_on_join "."%char (table m)) as Hjoin.
  pose proof (app_removelast_last EmptyString Hne) as Hsplit.
  split; [|split; [|split; [|done]]].
  - rewrite Forall_forall in Hpieces. apply Hpieces.
    set (prefix := List.last _ _) in *. rewrite Hsplit.
    apply elem_of_app. right. by left.
  - set (prefix := List.last _ _) in *. rewrite Hsplit, concat_snoc in Hjoin.
    destruct (removelast _) as [|q qs]; [by left|].
    right. eexists. symmetry. exact Hjoin.
  - intros Hplain. by rewrite split_on_plain.
Qed.

(** A check of [valid_values] that runs. *)
Lemma valid_values_checked (i : Instance) :
  forallb (fun cf => validate (snd cf) (attr i (fst cf))) (fields m) = true →
  valid_values i.
Proof.
  unfold valid_values. induction (fields m) as [|[n g] fs IH]; simpl; [done|].
  intros [Hg Hfs]%andb_true_iff c f.
  destruct (String.eqb_spec n c) as [->|_]; [by intros [= <-] | by apply IH].
Qed.

(** ** The heap invariant *)

Lemma preserves_key (l : loc) : preserves (mapM (getattr l) (primary_keys m)).
Proof. apply preserves_mapM. intros k. apply preserves_getattr. Qed.

Lemma preserves_delete (txn : option transaction) (l : loc) : preserves (delete_ txn l).
Proof.
  unfold delete_, mbind, M_bind. apply preserves_bind; [apply preserves_key|].
  intros key. apply preserves_call_method. destruct txn; repeat preserves_step.
Qed.

Lemma preserves_delete_batch (txn : option transaction) (models : list loc) :
  preserves (delete_batch txn models).
Proof.
  unfold delete_batch, mbind, M_bind. apply preserves_bind.
  - apply preserves_mapM. intros l. apply preserves_key.
  - intros keys. destruct txn; repeat preserves_step.
Qed.

Lemma preserves_find (txn : option transaction) (keys : pydict) :
  preserves (find txn keys).
Proof.
  unfold find, mbind, M_bind.
  apply preserves_bind; [apply preserves_find_multi | intros ?; preserves_step].
Qed.

Lemma preserves_all (txn : option transaction) : preserves (all txn).
Proof.
  unfold all, _results_to_models, mbind, M_bind.
  apply preserves_bind; [rewrite execute_read_unfold; preserves_step|].
  intros results. preserves_step. apply preserves_init.
Qed.

Lemma preserves_run {A} (c : M A) (w : World) :
  preserves c → all_columns w → all_columns (snd (c w)).
Proof. intros Hc Hw. eapply Hc; [exact Hw|]. apply surjective_pairing. Qed.


(** ** Names that clash with the module's own *)


End Model.

Arguments heap {api} w.
Arguments db {api} w.
Arguments trace {api} w.


(** * Concrete runs on the in-memory table *)

Import Memory.

Local Notation "x <~ c ; k" := (bind _ c (fun x => k))
  (at level 100, c at next level, right associativity).

Definition note_values (title : string) : pydict :=
  [("key", VInt 1); ("title", VStr title)].

Definition stored (title : string) : pydict :=
  [("key", VInt 1); ("title", VStr title); ("body", VNone)].

Definition world (objects : list Instance) (rows : list pydict) : World (api Note) :=
  Build_World (api Note) objects rows [].

Definition empty_world : World (api Note) := world [] [].

(** The field of the [title] column of [Note]. *)
Definition title_field : Field :=
  {| field_kind := String_; nullable := false; primary_key := false |}.

(** ** Attribute guards (C6) *)

Definition read_note : Instance := init_instance Note (note_values "a") true.

Lemma setattr_key_fails_on_note :
  __setattr__ (api Note) Note 0%nat "key" (VInt 1) (world [read_note] [])
  = (inl (AttributeError "key"), world [read_note] []).
Proof.
  apply (setattr_key_or_relation_fails (api Note) Note).
  left. vm_compute. left.
Defined.

(** ** Keyed reads (C10) *)

Lemma find_multi_without_key_on_note :
  ∃ column, column ∈ primary_keys Note ∧
    find_multi (api Note) Note None [[("title", VStr "a")]] empty_world
    = (inl (KeyError column), empty_world).
Proof.
  apply (proj1 (find_requires_primary_keys (api Note) Note None empty_world)).
  exists [("title", VStr "a")], "key".
  split; [left|]. split; [vm_compute; left|].
  apply dict_get_None. reflexivity.
Defined.

(** ** Construction (C7) *)

(** A model with two columns of the same field. *)
Definition Twin : ModelMeta :=
  {| model_name := "Twin";
     table := "twins";
     fields :=
       [("key", {| field_kind := Integer; nullable := false; primary_key := true |});
        ("first", title_field);
        ("second", title_field)];
     relations := [] |}.

(** [Note({"title": None})]: the key is missing and the non-nullable title
    is [None]; the missing-key error is raised, not the validation error.
    And in [Twin] a [None] for [first] and a [None] for [second] raise the
    same error: the validator's failure is forwarded as it is, so the error
    does not tell which column was rejected. *)
Lemma init_missing_key_before_validation :
  (violates Note [("title", VNone)] "title" ∧
   __init__ (api Note) Note [("title", VNone)] false empty_world
   = (inl (MissingKeys ["key"]), empty_world)) ∧
  (fst (__init__ (api Twin) Twin
          [("key", VInt 1); ("first", VNone); ("second", VStr "x")] false
          (Build_World (api Twin) [] [] []))
   = inl (Validation ValueError title_field VNone) ∧
   fst (__init__ (api Twin) Twin
          [("key", VInt 1); ("first", VStr "x"); ("second", VNone)] false
          (Build_World (api Twin) [] [] []))
   = inl (Validation ValueError title_field VNone)).
Proof.
  split; [|split; reflexivity].
  split; [|reflexivity].
  eexists. split; reflexivity.
Qed.

Lemma init_rejects_none_title_on_note :
  ∃ f v, __init__ (api Note) Note [("key", VInt 1); ("title", VNone)] false empty_world
         = (inl (Validation ValueError f v), empty_world).
Proof.
  destruct (init_contract (api Note) Note [("key", VInt 1); ("title", VNone)] empty_world)
    as (_ & _ & Hvalid & _).
  destruct Hvalid as (_ & Hnone & _); [reflexivity|].
  apply (Hnone "title" title_field);
    [vm_compute; right; left | reflexivity | reflexivity | reflexivity].
Defined.

(** ** The write primitive (C5) *)

Definition mixed_rows : list pydict :=
  [[("key", VInt 1)]; [("key", VInt 2); ("title", VStr "x")]; [("bogus", VInt 1)]].

(** Three inputs of [create]-like writes on [Note].
    - In [mixed_rows] the third dictionary has an undeclared key, yet the
      error raised is the mismatched-keys error of the second dictionary.
    - In [[{key: 1}, {bogus: 1}]] the two dictionaries have different key
      sets, yet the error raised is the invalid-keys error.
    - In [[{key: 1, title: None}]] every key is declared and there is one key
      set, yet no value matrix reaches the API: the validator's failure is
      raised. *)
Lemma execute_write_reports_mismatch_first :
  ([("bogus", VInt 1)] ∈ mixed_rows ∧
   undeclared Note [("bogus", VInt 1)] = ["bogus"] ∧
   _execute_write (api Note) Note insert None mixed_rows empty_world
   = (inl MismatchedKeys, empty_world)) ∧
  (keys_eqb (dict_keys [("key", VInt 1)]) (dict_keys [("bogus", VInt 1)]) = false ∧
   _execute_write (api Note) Note insert None
     [[("key", VInt 1)]; [("bogus", VInt 1)]] empty_world
   = (inl (InvalidKeys "Note" ["bogus"]), empty_world)) ∧
  (undeclared Note [("key", VInt 1); ("title", VNone)] = [] ∧
   _execute_write (api Note) Note insert None
     [[("key", VInt 1); ("title", VNone)]] empty_world
   = (inl (Validation SpannerError title_field VNone), empty_world)).
Proof.
  split; [|split].
  - split; [right; right; left|]. split; reflexivity.
  - split; reflexivity.
  - split; reflexivity.
Qed.

Definition uniform_rows : list pydict :=
  [[("key", VInt 1); ("title", VStr "x")]; [("key", VInt 2); ("title", VStr "y")]].

Lemma execute_write_uniform_rows :
  trace (snd (_execute_write (api Note) Note insert None uniform_rows empty_world))
  = [Write insert RunWrite "notes" (Some ["key"; "title"])
       [[VInt 1; VStr "x"]; [VInt 2; VStr "y"]]].
Proof.
  destruct (execute_write_contract (api Note) Note insert None uniform_rows empty_world)
    as (_ & _ & _ & _ & Hpass).
  destruct Hpass as (_ & Ht & _); [|exact Ht].
  repeat (constructor; [repeat split; reflexivity|]). constructor.
Defined.

(** ** [save] (C1, C4) *)

(** [a = Note(values, persisted=True); a.title = "b"; a.save(); a.changes()] *)
Definition edit_save_changes : M (api Note) pydict :=
  a <~ __init__ (api Note) Note (note_values "a") true;
  _ <~ __setattr__ (api Note) Note a "title" (VStr "b");
  _ <~ save (api Note) Note None a;
  changes (api Note) Note a.


Definition edited_note : Instance := set_attr "title" (VStr "b") read_note.


(** [a = Note(values); a.title = "b"; a.save(); a.save()] *)
Definition edit_save_twice : M (api Note) loc :=
  a <~ __init__ (api Note) Note (note_values "a") false;
  _ <~ __setattr__ (api Note) Note a "title" (VStr "b");
  _ <~ save (api Note) Note None a;
  save (api Note) Note None a.


Definition fresh_note : Instance := init_instance Note (note_values "a") false.


(** ** [reload] (C2) *)

(** [a = Note(values, persisted=True); a.reload(); a.changes()], the stored
    row holding another title. *)
Definition reload_changes : M (api Note) (option loc * pydict) :=
  a <~ __init__ (api Note) Note (note_values "a") true;
  r <~ reload (api Note) Note None a;
  c <~ changes (api Note) Note a;
  ret _ (r, c).



(** ** [save_batch] (C3, C9) *)

Definition stored_note : Instance :=
  init_instance Note [("key", VInt 2); ("title", VStr "b")] true.




(** * Further runs on the in-memory table *)

(** A name is not in a short list of names. *)
Ltac not_listed :=
  let H := fresh in
  intros H; vm_compute in H;
  repeat (apply elem_of_cons in H as [H|H]; [discriminate H|]);
  by apply elem_of_nil in H.

(** None of a short list of names is [cls] or [transaction]. *)
Ltac safe_names := split; not_listed.

(** Membership in a short list, case by case. *)
Ltac listed H :=
  repeat (apply elem_of_cons in H as [->|H]); [..|by apply elem_of_nil in H].

(** ** Attribute assignment (X6) *)


(** ** Construction (X7) *)


(** ** Keyed reads (X8) *)


(** ** Deletion (X10, X11) *)



(** ** The payload of an update (X12) *)


(** ** Checked writes (X14) *)

Lemma uniform_rows_are_validated :
  (∀ k, k ∈ dict_keys [("key", VInt 1); ("title", VStr "x")]
        ↔ k ∈ shared_columns uniform_rows) ∧
  ∀ k v, (k, v) ∈ [("key", VInt 1); ("title", VStr "x")] →
         k ∈ columns Note ∧
         ∃ f, schema_get (fields Note) k = Some f ∧ validate f v = true.
Proof.
  apply (writes_are_validated (api Note) Note insert None uniform_rows empty_world).
  - discriminate.
  - left.
Defined.

(** ** Failures of [save] (X16) *)


(** ** Rows of a batch (X17) *)


(** ** The heap invariant (X19) *)


(** ** Absent rows (X9) *)


(** ** Errors (X13) *)


(** ** Valid values (X15) *)


(** ** Names that clash (X20) *)

(** A model with a column named [id] and a column named [transaction]. *)
Definition Ledger : ModelMeta :=
  {| model_name := "Ledger";
     table := "ledger";
     fields :=
       [("id", {| field_kind := Integer; nullable := false; primary_key := true |});
        ("transaction", {| field_kind := String_; nullable := true; primary_key := false |})];
     relations := [] |}.

(** A model whose primary key is named [transaction]. *)
Definition Booking : ModelMeta :=
  {| model_name := "Booking";
     table := "bookings";
     fields :=
       [("transaction",
         {| field_kind := Integer; nullable := false; primary_key := true |})];
     relations := [] |}.

Definition ledger_entry : Instance := init_instance Ledger [("id", VInt 1)] false.

Definition booking : Instance := init_instance Booking [("transaction", VInt 7)] true.

(** A note that was given an attribute [changes] after it was read. *)
Definition shadowed_note : Instance := set_attr "changes" (VInt 5) read_note.


(** ** Assigning the flag (X21) *)

